(** * LocalTopSH tool layer: manage_message, memory, search_web, fetch_page

    A shallow embedding of [src/tools/memory.ts] (the [manage_message]
    half: the per-chat history of the bot's own message ids and the
    [execute] dispatcher; the [memory] half: the note file and
    [getMemoryForPrompt]) and of [src/tools/web.ts] ([executeSearchWeb]
    with its two providers, [executeFetchPage]), with the properties the
    specification states about them and further properties read off the
    code.

    Conventions of the embedding.
    - A JavaScript [number] that holds a chat id, a message id, an array
      length or an index is an integer here ([Z], lengths in [nat]).
    - A JavaScript string is a [string]; one character stands for one
      UTF-16 code unit.
    - An [async] function is run to completion: [await f(..)] is the call
      of [f].  A rejected promise is an abrupt completion [Throw e], where
      [e] is the [message] of the thrown [Error].
    - The module-level variables of a file are the fields of one record
      that is threaded through every call.
    - An array held by [recentMessages] is created by [recordBotMessage]
      and stored under one key only; a callback receives numbers and
      strings, never the array.  So [push], [shift], [pop] and [splice] on
      the array read from the map, followed by [set] under the same key,
      are the insertion of the updated list under that key. *)

From Stdlib Require Import ZArith Ascii String List.
From stdpp Require Import base numbers option list gmap strings pretty.

Open Scope string_scope.
Open Scope list_scope.
Open Scope Z_scope.

(** The comparisons the source writes with [>] and [>=]. *)
#[global] Instance nat_gt_dec : RelDecision gt := λ x y, decide (y < x)%nat.
#[global] Instance Z_ge_decision : RelDecision Z.ge := λ x y, Z_ge_dec x y.

(** ** Completions and effects *)

(** The message carried by a thrown [Error] (what [e.message] reads). *)
Definition Exn := string.

Inductive Completion (A : Type) : Type :=
  | Normal (a : A)
  | Throw (e : Exn).
Arguments Normal {A} a.
Arguments Throw {A} e.

(** A computation over the module state [St]; the state survives a throw,
    as the heap does in JavaScript. *)
Definition Eff (St A : Type) : Type := St → Completion A * St.

Section Eff.
Context {St : Type}.

Definition ret {A} (a : A) : Eff St A := λ s, (Normal a, s).

Definition throw {A} (e : Exn) : Eff St A := λ s, (Throw e, s).

Definition bind {A B} (m : Eff St A) (k : A → Eff St B) : Eff St B :=
  λ s, match m s with
       | (Normal a, s') => k a s'
       | (Throw e, s') => (Throw e, s')
       end.

(** [try { m } catch (e) { h e }] *)
Definition try_catch {A} (m : Eff St A) (h : Exn → Eff St A) : Eff St A :=
  λ s, match m s with
       | (Normal a, s') => (Normal a, s')
       | (Throw e, s') => h e s'
       end.

Definition gets {A} (f : St → A) : Eff St A := λ s, (Normal (f s), s).

Definition modify (f : St → St) : Eff St unit := λ s, (Normal tt, f s).
End Eff.

Notation "x ←' m ; k" := (bind m (λ x, k))
  (at level 100, m at next level, k at level 200, right associativity,
   format "x  ←'  m ;  '/' k").
Notation "m ;;' k" := (bind m (λ _, k))
  (at level 100, k at level 200, right associativity).

(** ** The result every tool returns

    [{ success: boolean; output?: string; error?: string }] *)
Record Result : Type := mkResult {
  success : bool;
  output : option string;
  error : option string
}.

(** [{ success: true, output: s }] *)
Definition succeeded (s : string) : Result :=
  {| success := true; output := Some s; error := None |}.

(** [{ success: false, error: s }] *)
Definition failed (s : string) : Result :=
  {| success := false; output := None; error := Some s |}.

(** An optional string used as a condition ([if (s)], [!s], [s ? a : b]):
    a missing and an empty string are both falsy. *)
Definition truthy (o : option string) : option string :=
  match o with
  | Some "" => None
  | other => other
  end.

(** ** manage_message (src/tools/memory.ts, second half) *)
Module ManageMessage.

(** A call that reached the messaging platform through a callback. *)
Inductive GatewayCall : Type :=
  | DeleteMessage (chatId messageId : Z)
  | EditMessage (chatId messageId : Z) (newText : string).

(** The callbacks are supplied by the bot.  Their answer may depend on
    what the platform has been asked before; they resolve to a boolean or
    reject. *)
Definition DeleteCallback : Type := list GatewayCall → Z → Z → Completion bool.
Definition EditCallback : Type :=
  list GatewayCall → Z → Z → string → Completion bool.

(** Module-level state: [recentMessages], the two callbacks, and the log
    of the calls made to the platform (oldest first). *)
Record State : Type := mkState {
  recentMessages : gmap Z (list Z);
  deleteMessageCallback : option DeleteCallback;
  editMessageCallback : option EditCallback;
  gatewayLog : list GatewayCall
}.

Definition MAX_STORED : nat := 20.

Definition with_recentMessages (f : gmap Z (list Z) → gmap Z (list Z))
    (s : State) : State :=
  {| recentMessages := f (recentMessages s);
     deleteMessageCallback := deleteMessageCallback s;
     editMessageCallback := editMessageCallback s;
     gatewayLog := gatewayLog s |}.

Definition with_gatewayLog (f : list GatewayCall → list GatewayCall)
    (s : State) : State :=
  {| recentMessages := recentMessages s;
     deleteMessageCallback := deleteMessageCallback s;
     editMessageCallback := editMessageCallback s;
     gatewayLog := f (gatewayLog s) |}.

(** [recentMessages.get(chatId) || []]: an array, even an empty one, is
    truthy, so the stored array is returned whenever the key is present. *)
Definition stored (chatId : Z) (s : State) : list Z :=
  default [] (recentMessages s !! chatId).

(** [Array.prototype.shift] and [pop], as far as the array is concerned. *)
Definition shift (messages : list Z) : list Z := tail messages.
Definition pop (messages : list Z) : list Z := removelast messages.

(** [messages.splice(idx, 1)], for [0 <= idx]. *)
Definition splice1 (idx : nat) (messages : list Z) : list Z :=
  take idx messages ++ drop (S idx) messages.

(** [messages[i]].  Reading outside the array gives [undefined] in
    JavaScript; [execute] only reads inside it (lemmas [at_index_last]
    and [at_index_lookup] are what its branches use), so the default is
    never observed. *)
Definition at_index (messages : list Z) (i : Z) : Z :=
  messages !!! Z.to_nat i.

Definition recordBotMessage (chatId messageId : Z) (s : State) : State :=
  let messages := stored chatId s in
  let messages := messages ++ [messageId] in
  let messages :=
    if decide (length messages > MAX_STORED)%nat then shift messages
    else messages in
  with_recentMessages (insert chatId messages) s.

Definition getRecentMessages (chatId : Z) (s : State) : list Z :=
  stored chatId s.

Definition setDeleteMessageCallback (cb : DeleteCallback) (s : State) : State :=
  {| recentMessages := recentMessages s;
     deleteMessageCallback := Some cb;
     editMessageCallback := editMessageCallback s;
     gatewayLog := gatewayLog s |}.

Definition setEditMessageCallback (cb : EditCallback) (s : State) : State :=
  {| recentMessages := recentMessages s;
     deleteMessageCallback := deleteMessageCallback s;
     editMessageCallback := Some cb;
     gatewayLog := gatewayLog s |}.

(** The state after one more call has reached the platform. *)
Definition logged (call : GatewayCall) (s : State) : State :=
  with_gatewayLog (λ log, log ++ [call]) s.

(** [await deleteMessageCallback(chatId, msgId)] *)
Definition callDelete (cb : DeleteCallback) (chatId msgId : Z)
    : Eff State bool :=
  λ s, (cb (gatewayLog s) chatId msgId, logged (DeleteMessage chatId msgId) s).

(** [await editMessageCallback(chatId, msgId, newText)] *)
Definition callEdit (cb : EditCallback) (chatId msgId : Z) (newText : string)
    : Eff State bool :=
  λ s, (cb (gatewayLog s) chatId msgId newText,
        logged (EditMessage chatId msgId newText) s).

(** [args: { action: string; index?: number; new_text?: string }] *)
Record Args : Type := mkArgs {
  action : string;
  index : option Z;
  new_text : option string
}.

(** [let idx = args.index ?? -1; if (idx < 0) idx = messages.length + idx;] *)
Definition resolveIndex (messages : list Z) (index : option Z) : Z :=
  let idx := default (-1) index in
  if decide (idx < 0) then Z.of_nat (length messages) + idx else idx.

(** The template literal of the out-of-range error. *)
Definition invalidIndex (len : nat) : string :=
  "Invalid index. Have " +:+ pretty len +:+ " messages (0-"
    +:+ pretty (Z.of_nat len - 1) +:+ ")".

Definition execute (args : Args) (chatId : Z) : Eff State Result :=
  messages ←' gets (stored chatId);
  if decide (length messages = 0%nat) then
    ret (failed "No recent messages to manage")
  else if String.eqb (action args) "delete_last" then
    cb ←' gets deleteMessageCallback;
    match cb with
    | None => ret (failed "Delete not configured")
    | Some deleteMessage =>
      let msgId := at_index messages (Z.of_nat (length messages) - 1) in
      try_catch
        (ok ←' callDelete deleteMessage chatId msgId;
         if ok : bool then
           modify (with_recentMessages (insert chatId (pop messages))) ;;'
           ret (succeeded "Deleted last message")
         else
           ret (failed "Failed to delete (maybe already deleted or too old)"))
        (λ e, ret (failed ("Delete failed: " +:+ e)))
    end
  else if String.eqb (action args) "delete_by_index" then
    cb ←' gets deleteMessageCallback;
    match cb with
    | None => ret (failed "Delete not configured")
    | Some deleteMessage =>
      let idx := resolveIndex messages (index args) in
      if decide (idx < 0 ∨ idx >= Z.of_nat (length messages)) then
        ret (failed (invalidIndex (length messages)))
      else
        let msgId := at_index messages idx in
        try_catch
          (ok ←' callDelete deleteMessage chatId msgId;
           if ok : bool then
             modify (with_recentMessages
                       (insert chatId (splice1 (Z.to_nat idx) messages))) ;;'
             ret (succeeded ("Deleted message at index " +:+ pretty idx))
           else
             ret (failed "Failed to delete"))
          (λ e, ret (failed ("Delete failed: " +:+ e)))
    end
  else if String.eqb (action args) "edit_last" then
    cb ←' gets editMessageCallback;
    match cb with
    | None => ret (failed "Edit not configured")
    | Some editMessage =>
      match truthy (new_text args) with
      | None => ret (failed "new_text required for edit")
      | Some newText =>
        let msgId := at_index messages (Z.of_nat (length messages) - 1) in
        try_catch
          (ok ←' callEdit editMessage chatId msgId newText;
           if ok : bool then
             ret (succeeded "Edited last message")
           else
             ret (failed "Failed to edit (maybe too old or contains media)"))
          (λ e, ret (failed ("Edit failed: " +:+ e)))
      end
    end
  else
    ret (failed ("Unknown action: " +:+ action args)).

(** What the [try] block of either delete branch amounts to once the
    target is chosen: one call, and the array shrinks to [kept] only when
    the platform confirms. *)
Definition settleDelete (cb : DeleteCallback) (chatId target : Z)
    (kept : list Z) (done_ rejected : string) (s : State)
    : Completion Result * State :=
  match cb (gatewayLog s) chatId target with
  | Normal true =>
      (Normal (succeeded done_),
       with_recentMessages (insert chatId kept)
         (logged (DeleteMessage chatId target) s))
  | Normal false =>
      (Normal (failed rejected), logged (DeleteMessage chatId target) s)
  | Throw e =>
      (Normal (failed ("Delete failed: " +:+ e)),
       logged (DeleteMessage chatId target) s)
  end.

(** [ids.forEach(id => recordBotMessage(chatId, id))]: the sends of one
    conversation, in order. *)
Definition recordAll (chatId : Z) (ids : list Z) (s : State) : State :=
  foldl (λ s id, recordBotMessage chatId id s) s ids.

(** The state of a process that has just started. *)
Definition initial : State :=
  {| recentMessages := ∅; deleteMessageCallback := None;
     editMessageCallback := None; gatewayLog := [] |}.

(** The conversation of the specification's scenarios: chat 7 after the
    sends 201, 202, 203, with no callback installed, and with a platform
    that answers every request by [answer]. *)
Definition scenario : State := recordAll 7 [201; 202; 203] initial.

Definition scenarioWith (answer : Completion bool) : State :=
  setEditMessageCallback (λ _ _ _ _, answer)
    (setDeleteMessageCallback (λ _ _ _, answer) scenario).

End ManageMessage.

(** ** search_web (src/tools/web.ts) *)
Module Web.

Record SearchResult : Type := mkSearchResult {
  title : string;
  url : string;
  content : string;
  date : option string
}.

(** One entry of [data.search_result] in the Z.AI answer. *)
Record ZaiEntry : Type := mkZaiEntry {
  z_title : string;
  z_link : string;
  z_content : string;
  z_publish_date : option string
}.

(** What [fetch] resolves to: [response.ok], [response.status] and the
    outcome of [response.json()], reduced to its [search_result] field
    ([None] when the field is missing). *)
Record Response : Type := mkResponse {
  ok : bool;
  status : Z;
  json : Completion (option (list ZaiEntry))
}.

(** One entry of [response.results] in the Tavily answer. *)
Record TavilyEntry : Type := mkTavilyEntry {
  t_title : string;
  t_url : string;
  t_content : string
}.

(** What leaves the process, in order. *)
Inductive Event : Type :=
  | ZaiRequest (query apiKey : string)
  | TavilyRequest (query apiKey : string)
  | ConsoleLog (line : string).

Definition newline : string := String (Ascii.ascii_of_nat 10) "".

(** [s.slice(0, n)] *)
Definition slice0 (n : nat) (s : string) : string := substring 0 n s.

Section Providers.
(** The network: the POST to [https://api.z.ai/v1/web-search] with the
    given query and bearer key, and the Tavily client's
    [search(query, { maxResults: 5 })] for the given key. *)
Variable fetch : string → string → Completion Response.
Variable tavilySearch : string → string → Completion (list TavilyEntry).

Definition doFetch (query apiKey : string) : Eff (list Event) Response :=
  λ log, (fetch query apiKey, log ++ [ZaiRequest query apiKey]).

Definition doTavily (query apiKey : string)
    : Eff (list Event) (list TavilyEntry) :=
  λ log, (tavilySearch query apiKey, log ++ [TavilyRequest query apiKey]).

Definition consoleLog (line : string) : Eff (list Event) unit :=
  modify (λ log, log ++ [ConsoleLog line]).

Definition searchZai (query apiKey : string)
    : Eff (list Event) (list SearchResult) :=
  response ←' doFetch query apiKey;
  if negb (ok response) then
    throw ("Z.AI error: " +:+ pretty (status response))
  else
    data ←' (λ log, (json response, log));
    ret (map (λ r, {| title := z_title r; url := z_link r;
                      content := z_content r; date := z_publish_date r |})
             (default [] data)).

Definition searchTavily (query apiKey : string)
    : Eff (list Event) (list SearchResult) :=
  results ←' doTavily query apiKey;
  ret (map (λ r, {| title := t_title r; url := t_url r;
                    content := t_content r; date := None |})
           results).

(** The callback of [results.map((r, i) => ...)]. *)
Definition renderResult (i : nat) (r : SearchResult) : string :=
  let date := match truthy (date r) with
              | Some d => " (" +:+ d +:+ ")"
              | None => ""
              end in
  "[" +:+ pretty (i + 1)%nat +:+ "] " +:+ title r +:+ date +:+ newline
    +:+ url r +:+ newline +:+ slice0 400 (content r).

(** [results.map(...).join('\n\n')] *)
Definition render (results : list SearchResult) : string :=
  String.concat (newline +:+ newline) (imap renderResult results).

(** The part of [executeSearchWeb] after [results] is assigned. *)
Definition present (results : list SearchResult) : Result :=
  if decide (length results = 0%nat) then succeeded "(no results)"
  else succeeded (render results).

(** The [if]/[else if]/[else] that assigns [results]; [None] stands for
    the early [return] of its last branch. *)
Definition obtain (query : string) (zaiApiKey tavilyApiKey : option string)
    : Eff (list Event) (option (list SearchResult)) :=
  match truthy zaiApiKey with
  | Some zaiKey =>
    try_catch
      (results ←' searchZai query zaiKey; ret (Some results))
      (λ e,
        consoleLog "[search] Z.AI failed, trying Tavily..." ;;'
        match truthy tavilyApiKey with
        | Some tavilyKey =>
          results ←' searchTavily query tavilyKey; ret (Some results)
        | None => throw e
        end)
  | None =>
    match truthy tavilyApiKey with
    | Some tavilyKey =>
      results ←' searchTavily query tavilyKey; ret (Some results)
    | None => ret None
    end
  end.

Definition executeSearchWeb (query : string)
    (zaiApiKey tavilyApiKey : option string) : Eff (list Event) Result :=
  try_catch
    (results ←' obtain query zaiApiKey tavilyApiKey;
     match results with
     | None =>
       ret (failed "No search API configured (ZAI_API_KEY or TAVILY_API_KEY)")
     | Some results => ret (present results)
     end)
    (λ e, ret (failed e)).
End Providers.

(** What [executeSearchWeb] reports for the outcome of the provider it
    ends on. *)
Definition report (outcome : Completion (list SearchResult)) : Result :=
  match outcome with
  | Normal results => present results
  | Throw e => failed e
  end.

(** Sample networks: Z.AI answering with two entries, Z.AI answering with
    status 500, and Tavily answering with one entry of 410 characters. *)
Definition zaiUp : string → string → Completion Response :=
  λ _ _, Normal {| ok := true; status := 200;
                   json := Normal (Some [
                     mkZaiEntry "Rocq" "https://rocq-prover.org"
                       "The Rocq Prover" (Some "2025-03-12");
                     mkZaiEntry "stdpp" "https://gitlab.mpi-sws.org/iris/stdpp"
                       "An extended standard library" None]) |}.

Definition zaiDown : string → string → Completion Response :=
  λ _ _, Normal {| ok := false; status := 500; json := Throw "no body" |}.

Definition tenDigits : string := "0123456789".

Definition tavilyLong : string → string → Completion (list TavilyEntry) :=
  λ _ _, Normal [mkTavilyEntry "Digits" "https://example.org/digits"
                   (String.concat "" (replicate 41 tenDigits))].

End Web.

(** ** memory (src/tools/memory.ts, first half) *)
Module Memory.

Definition MEMORY_FILE : string := "MEMORY.md".

(** What the tool sees of the outside: the files (path to content), the
    paths on which a read or a write fails and with which message
    (permissions, a directory in the way, a file removed between the
    existence test and the read), and what [new Date().toISOString()]
    returns. *)
Record World : Type := mkWorld {
  files : gmap string string;
  readError : string → option Exn;
  writeError : string → option Exn;
  now : string
}.

Definition with_files (f : gmap string string → gmap string string)
    (w : World) : World :=
  {| files := f (files w); readError := readError w;
     writeError := writeError w; now := now w |}.

(** [existsSync(path)] never throws. *)
Definition existsSync (path : string) : Eff World bool :=
  gets (λ w, bool_decide (is_Some (files w !! path))).

(** [readFileSync(path, 'utf-8')] *)
Definition readFileSync (path : string) : Eff World string :=
  λ w, match readError w path with
       | Some e => (Throw e, w)
       | None =>
         match files w !! path with
         | Some data => (Normal data, w)
         | None =>
           (Throw ("ENOENT: no such file or directory, open '" +:+ path
                     +:+ "'"), w)
         end
       end.

(** [writeFileSync(path, data, 'utf-8')] *)
Definition writeFileSync (path data : string) : Eff World unit :=
  λ w, match writeError w path with
       | Some e => (Throw e, w)
       | None => (Normal tt, with_files (insert path data) w)
       end.

(** [new Date().toISOString()] *)
Definition toISOString : Eff World string := gets now.

Definition newline : string := String (Ascii.ascii_of_nat 10) "".

(** [s.replace(c, r)] for a one-character pattern [c]: the first occurrence
    is replaced. *)
Fixpoint replaceFirst (c : Ascii.ascii) (r : string) (s : string) : string :=
  match s with
  | "" => ""
  | String a s' =>
    if Ascii.eqb a c then r +:+ s' else String a (replaceFirst c r s')
  end.

(** [s.slice(-n)] *)
Definition sliceLast (n : nat) (s : string) : string :=
  substring (String.length s - n) n s.

(** The white space [String.prototype.trim] removes, among the code units
    a character of this embedding can hold: tab, line feed, vertical tab,
    form feed, carriage return, space and no-break space. *)
Definition isWhiteSpace (a : Ascii.ascii) : bool :=
  let n := Ascii.nat_of_ascii a in
  bool_decide (n ∈ [9; 10; 11; 12; 13; 32; 160]%nat).

Fixpoint trimStart (s : string) : string :=
  match s with
  | "" => ""
  | String a s' => if isWhiteSpace a then trimStart s' else s
  end.

Fixpoint trimEnd (s : string) : string :=
  match s with
  | "" => ""
  | String a s' =>
    match trimEnd s' with
    | "" => if isWhiteSpace a then "" else String a ""
    | kept => String a kept
    end
  end.

(** [s.trim()] *)
Definition trim (s : string) : string := trimEnd (trimStart s).

(** The text a new or cleared memory file starts with. *)
Definition header : string :=
  "# Agent Memory" +:+ newline +:+ newline
    +:+ "Important context and notes from previous sessions." +:+ newline.

(** [iso.slice(0, 16).replace('T', ' ')] *)
Definition timestampOf (iso : string) : string :=
  replaceFirst "T"%char " " (Web.slice0 16 iso).

(** The template literal of a new entry. *)
Definition entryOf (timestamp content : string) : string :=
  newline +:+ "## " +:+ timestamp +:+ newline +:+ content +:+ newline.

(** [args: { action: 'read' | 'append' | 'clear'; content?: string }] *)
Record Args : Type := mkArgs {
  action : string;
  content : option string
}.

(** What [writeFileSync(path, data)] followed by a success report amounts
    to: the report, or the write error as a failure with nothing written. *)
Definition written (path data done_ : string) (w : World)
    : Completion Result * World :=
  match writeError w path with
  | Some e => (Normal (failed e), w)
  | None => (Normal (succeeded done_), with_files (insert path data) w)
  end.

Section Path.
(** [path.join] *)
Variable join : string → string → string.

Definition execute (args : Args) (cwd : string) : Eff World Result :=
  let memoryPath := join cwd MEMORY_FILE in
  try_catch
    (if String.eqb (action args) "read" then
       present ←' existsSync memoryPath;
       if negb present then ret (succeeded "(memory is empty)")
       else
         data ←' readFileSync memoryPath;
         ret (succeeded (default "(memory is empty)" (truthy (Some data))))
     else if String.eqb (action args) "append" then
       match truthy (content args) with
       | None => ret (failed "Content required for append")
       | Some text =>
         iso ←' toISOString;
         let entry := entryOf (timestampOf iso) text in
         present ←' existsSync memoryPath;
         existing ←' (if present : bool then readFileSync memoryPath
                      else ret header);
         writeFileSync memoryPath (existing +:+ entry) ;;'
         ret (succeeded ("Added to memory ("
                           +:+ pretty (String.length text) +:+ " chars)"))
       end
     else if String.eqb (action args) "clear" then
       writeFileSync memoryPath header ;;'
       ret (succeeded "Memory cleared")
     else
       ret (failed ("Unknown action: " +:+ action args)))
    (λ e, ret (failed e)).

Definition maxLen : nat := 2000.

(** [null] is [None]. *)
Definition getMemoryForPrompt (cwd : string) : Eff World (option string) :=
  let memoryPath := join cwd MEMORY_FILE in
  present ←' existsSync memoryPath;
  if negb present then ret None
  else
    try_catch
      (data ←' readFileSync memoryPath;
       if decide (String.length (trim data) < 100)%nat then ret None
       else if decide (String.length data > maxLen)%nat then
         ret (Some ("...(truncated)..." +:+ newline +:+ sliceLast maxLen data))
       else ret (Some data))
      (λ _, ret None).
End Path.

(** A sample: the usual join for a directory without trailing slash, and
    an empty disk at a fixed time. *)
Definition joinSlash (dir file : string) : string := dir +:+ "/" +:+ file.

Definition blank : World :=
  {| files := ∅; readError := λ _, None; writeError := λ _, None;
     now := "2026-11-01T06:40:12.345Z" |}.

End Memory.

(** ** fetch_page (src/tools/web.ts) *)
Module FetchPage.

(** What [fetch(url, { headers })] resolves to: [response.ok],
    [response.status] and the outcome of [response.text()]. *)
Record Response : Type := mkResponse {
  ok : bool;
  status : Z;
  text : Completion string
}.

Inductive Event : Type :=
  | Get (url userAgent : string)
  | ReadText.

(** The identifying header sent with every request. *)
Definition userAgent : string := "Mozilla/5.0 (compatible; Agent/1.0)".

Section Network.
(** The GET of a URL. *)
Variable fetch : string → Completion Response.

Definition doFetch (url userAgent : string) : Eff (list Event) Response :=
  λ log, (fetch url, log ++ [Get url userAgent]).

(** [await response.text()] *)
Definition readText (response : Response) : Eff (list Event) string :=
  λ log, (text response, log ++ [ReadText]).

Definition executeFetchPage (url : string) : Eff (list Event) Result :=
  try_catch
    (response ←' doFetch url "Mozilla/5.0 (compatible; Agent/1.0)";
     if negb (ok response) then
       ret (failed ("HTTP " +:+ pretty (status response)))
     else
       body ←' readText response;
       ret (succeeded (Web.slice0 (Z.to_nat 50000) body)))
    (λ e, ret (failed e)).
End Network.

End FetchPage.

(** ** A process: sends, tool calls and callback installation, in order *)
Module Session.
Import ManageMessage.

Inductive Step : Type :=
  | Send (chatId messageId : Z)
  | Manage (args : Args) (chatId : Z)
  | InstallDelete (cb : DeleteCallback)
  | InstallEdit (cb : EditCallback).

Definition step (s : State) (st : Step) : State :=
  match st with
  | Send chatId messageId => recordBotMessage chatId messageId s
  | Manage args chatId => (execute args chatId s).2
  | InstallDelete cb => setDeleteMessageCallback cb s
  | InstallEdit cb => setEditMessageCallback cb s
  end.

Definition run (steps : list Step) (s : State) : State := foldl step s steps.

(** The identifiers sent to one conversation, in order. *)
Definition sentTo (chatId : Z) (steps : list (Z * Z)) : list Z :=
  (filter (λ c, c.1 = chatId) steps).*2.

(** Sends to several conversations, interleaved. *)
Definition recordMany (sends : list (Z * Z)) (s : State) : State :=
  foldl (λ s c, recordBotMessage c.1 c.2 s) s sends.

End Session.

(** * Properties of manage_message *)
Module ManageMessageFacts.
Import ManageMessage.

(** ** The history store *)

Lemma stored_insert chatId messages s :
  stored chatId (with_recentMessages (insert chatId messages) s) = messages.
Proof. unfold stored; simpl. by rewrite lookup_insert_eq. Qed.

Lemma stored_insert_ne chatId other messages s :
  chatId ≠ other →
  stored other (with_recentMessages (insert chatId messages) s)
  = stored other s.
Proof. intros Hne. unfold stored; simpl. by rewrite lookup_insert_ne. Qed.

(** A key that was never recorded reads as the empty history. *)
Lemma stored_fresh chatId s :
  recentMessages s !! chatId = None → stored chatId s = [].
Proof. unfold stored. by intros ->. Qed.

(** One send: append, then drop the oldest when the capacity is exceeded. *)
Lemma stored_record chatId messageId s :
  stored chatId (recordBotMessage chatId messageId s)
  = if decide (length (stored chatId s ++ [messageId]) > MAX_STORED)%nat
    then shift (stored chatId s ++ [messageId])
    else stored chatId s ++ [messageId].
Proof. unfold recordBotMessage. by rewrite stored_insert. Qed.

(** A send in one conversation leaves every other conversation alone. *)
Lemma stored_record_ne chatId other messageId s :
  chatId ≠ other →
  stored other (recordBotMessage chatId messageId s) = stored other s.
Proof. intros Hne. unfold recordBotMessage. by rewrite stored_insert_ne. Qed.

Lemma recordAll_cons chatId messageId ids s :
  recordAll chatId (messageId :: ids) s
  = recordAll chatId ids (recordBotMessage chatId messageId s).
Proof. reflexivity. Qed.

(** The capacity bound is an invariant of [recordBotMessage]. *)
Lemma record_within_capacity chatId messageId s :
  (length (stored chatId s) ≤ MAX_STORED)%nat →
  (length (stored chatId (recordBotMessage chatId messageId s))
     ≤ MAX_STORED)%nat.
Proof.
  intros Hlen. rewrite stored_record. unfold shift, MAX_STORED in *.
  case_decide as Hgt; rewrite length_app in Hgt; simpl in Hgt.
  - destruct (stored chatId s) as [|x l]; simpl in *; [lia|].
    rewrite length_app; simpl. lia.
  - rewrite length_app; simpl. lia.
Qed.

(** Starting from a history within capacity, a run of sends keeps the
    newest [MAX_STORED] identifiers of the old history followed by the
    new ones. *)
Lemma recordAll_window chatId ids : ∀ s,
  (length (stored chatId s) ≤ MAX_STORED)%nat →
  stored chatId (recordAll chatId ids s)
  = drop (length (stored chatId s ++ ids) - MAX_STORED)
         (stored chatId s ++ ids).
Proof.
  induction ids as [|messageId ids IH]; intros s Hlen.
  - simpl. rewrite app_nil_r.
    replace (length (stored chatId s) - MAX_STORED)%nat with 0%nat by lia.
    reflexivity.
  - rewrite recordAll_cons, IH by by apply record_within_capacity.
    rewrite stored_record. unfold shift, MAX_STORED in *.
    case_decide as Hgt; rewrite length_app in Hgt; simpl in Hgt.
    + destruct (stored chatId s) as [|x l] eqn:Hst; simpl in *; [lia|].
      assert (length l = 19%nat) as Hl by lia.
      rewrite <- app_assoc; simpl.
      rewrite !length_app; simpl. rewrite Hl.
      replace (19 + S (length ids) - 20)%nat with (length ids) by lia.
      replace (S (19 + S (length ids)) - 20)%nat with (S (length ids)) by lia.
      reflexivity.
    + by rewrite <- app_assoc.
Qed.

(** ** Reading and shrinking the array *)

Lemma at_index_lookup (messages : list Z) (i : nat) (x : Z) :
  messages !! i = Some x → at_index messages (Z.of_nat i) = x.
Proof.
  intros Hi. unfold at_index. rewrite Nat2Z.id.
  by apply list_lookup_total_correct.
Qed.

Lemma at_index_last (messages : list Z) (x : Z) :
  last messages = Some x →
  at_index messages (Z.of_nat (length messages) - 1) = x.
Proof.
  intros Hlast. rewrite last_lookup in Hlast.
  destruct messages as [|y l]; [done|].
  replace (Z.of_nat (length (y :: l)) - 1) with (Z.of_nat (length l))
    by (simpl; lia).
  by apply at_index_lookup.
Qed.

Lemma pop_take (messages : list Z) :
  pop messages = take (length messages - 1) messages.
Proof.
  unfold pop. rewrite removelast_firstn_len. f_equal. lia.
Qed.

Lemma take_drop_last (messages : list Z) :
  messages ≠ [] →
  take (length messages - 1) messages
    ++ drop (S (length messages - 1)) messages
  = take (length messages - 1) messages.
Proof.
  intros Hne. rewrite drop_ge; [by rewrite app_nil_r|].
  destruct messages; [done | simpl; lia].
Qed.

Lemma nonempty_last (messages : list Z) :
  messages ≠ [] → ∃ x, last messages = Some x.
Proof.
  intros Hne. destruct (last messages) as [x|] eqn:Hlast; [by eexists|].
  by apply last_None in Hlast.
Qed.

(** ** The dispatcher, branch by branch *)

Lemma execute_no_history args chatId s :
  stored chatId s = [] →
  execute args chatId s = (Normal (failed "No recent messages to manage"), s).
Proof.
  intros Hempty. unfold execute, bind, gets. by rewrite Hempty.
Qed.

Lemma execute_delete_last idx txt chatId s cb target :
  deleteMessageCallback s = Some cb →
  last (stored chatId s) = Some target →
  execute (mkArgs "delete_last" idx txt) chatId s
  = settleDelete cb chatId target (pop (stored chatId s))
      "Deleted last message"
      "Failed to delete (maybe already deleted or too old)" s.
Proof.
  intros Hcb Hlast.
  unfold execute, settleDelete, bind, gets, try_catch, callDelete.
  case_decide as Hlen.
  { destruct (stored chatId s); [done | discriminate]. }
  simpl. rewrite Hcb, (at_index_last _ _ Hlast).
  destruct (cb _ _ _) as [[]|]; reflexivity.
Qed.

Lemma execute_delete_unconfigured idx txt chatId s act :
  act = "delete_last" ∨ act = "delete_by_index" →
  stored chatId s ≠ [] →
  deleteMessageCallback s = None →
  execute (mkArgs act idx txt) chatId s
  = (Normal (failed "Delete not configured"), s).
Proof.
  intros Hact Hne Hcb. unfold execute, bind, gets.
  case_decide as Hlen.
  { destruct (stored chatId s); [done | discriminate]. }
  destruct Hact as [-> | ->]; simpl; by rewrite Hcb.
Qed.

Lemma execute_delete_by_index idx txt chatId s cb :
  deleteMessageCallback s = Some cb →
  stored chatId s ≠ [] →
  let messages := stored chatId s in
  let resolved := resolveIndex messages idx in
  execute (mkArgs "delete_by_index" idx txt) chatId s
  = if decide (0 ≤ resolved < Z.of_nat (length messages)) then
      settleDelete cb chatId (at_index messages resolved)
        (splice1 (Z.to_nat resolved) messages)
        ("Deleted message at index " +:+ pretty resolved)
        "Failed to delete" s
    else (Normal (failed (invalidIndex (length messages))), s).
Proof.
  intros Hcb Hne messages resolved.
  unfold execute, settleDelete, bind, gets, try_catch, callDelete.
  case_decide as Hlen.
  { destruct (stored chatId s); [done | discriminate]. }
  simpl. rewrite Hcb. fold messages. fold resolved.
  destruct (decide (0 ≤ resolved < _)) as [Hin|Hout].
  - rewrite decide_False by lia.
    destruct (cb _ _ _) as [[]|]; reflexivity.
  - rewrite decide_True by lia. reflexivity.
Qed.

Lemma execute_edit_unconfigured idx txt chatId s :
  stored chatId s ≠ [] →
  editMessageCallback s = None →
  execute (mkArgs "edit_last" idx txt) chatId s
  = (Normal (failed "Edit not configured"), s).
Proof.
  intros Hne Hcb. unfold execute, bind, gets.
  case_decide as Hlen.
  { destruct (stored chatId s); [done | discriminate]. }
  simpl. by rewrite Hcb.
Qed.

Lemma execute_edit_no_text idx txt chatId s cb :
  stored chatId s ≠ [] →
  editMessageCallback s = Some cb →
  truthy txt = None →
  execute (mkArgs "edit_last" idx txt) chatId s
  = (Normal (failed "new_text required for edit"), s).
Proof.
  intros Hne Hcb Htxt. unfold execute, bind, gets.
  case_decide as Hlen.
  { destruct (stored chatId s); [done | discriminate]. }
  simpl. by rewrite Hcb, Htxt.
Qed.

Lemma execute_edit_last idx txt chatId s cb target newText :
  editMessageCallback s = Some cb →
  last (stored chatId s) = Some target →
  truthy txt = Some newText →
  execute (mkArgs "edit_last" idx txt) chatId s
  = (Normal
       match cb (gatewayLog s) chatId target newText with
       | Normal true => succeeded "Edited last message"
       | Normal false =>
           failed "Failed to edit (maybe too old or contains media)"
       | Throw e => failed ("Edit failed: " +:+ e)
       end,
     logged (EditMessage chatId target newText) s).
Proof.
  intros Hcb Hlast Htxt.
  unfold execute, bind, gets, try_catch, callEdit.
  case_decide as Hlen.
  { destruct (stored chatId s); [done | discriminate]. }
  simpl. rewrite Hcb, Htxt, (at_index_last _ _ Hlast).
  destruct (cb _ _ _ _) as [[]|]; reflexivity.
Qed.

(** C1. After N sends into a conversation that had no history (its key
    is absent from the map, or holds an empty array), the history holds
    [min N 20] identifiers, and they are the last [min N 20] identifiers
    sent, in send order: on overflow the oldest is evicted. *)
Theorem fifo_eviction (s : State) (chatId : Z) (ids : list Z) :
  getRecentMessages chatId s = [] →
  let N := length ids in
  let history := getRecentMessages chatId (recordAll chatId ids s) in
  length history = (N `min` 20)%nat ∧ history = drop (N - N `min` 20) ids.
Proof.
  intros Hfresh N history. unfold getRecentMessages in Hfresh.
  assert (history = drop (N - 20) ids) as ->.
  { subst history N. unfold getRecentMessages.
    rewrite recordAll_window; rewrite Hfresh; simpl; [reflexivity | lia]. }
  split.
  - rewrite length_drop. lia.
  - f_equal. lia.
Qed.

Lemma fifo_eviction_witness :
  getRecentMessages 7 initial = [] ∧
  let ids := [101; 102; 103; 104; 105; 106; 107; 108; 109; 110; 111;
              112; 113; 114; 115; 116; 117; 118; 119; 120; 121] in
  let history := getRecentMessages 7 (recordAll 7 ids initial) in
  length history = 20%nat ∧
  history = [102; 103; 104; 105; 106; 107; 108; 109; 110; 111;
             112; 113; 114; 115; 116; 117; 118; 119; 120; 121].
Proof.
  split; [reflexivity|].
  exact (fifo_eviction initial 7
           [101; 102; 103; 104; 105; 106; 107; 108; 109; 110; 111;
            112; 113; 114; 115; 116; 117; 118; 119; 120; 121] eq_refl).
Defined.

Lemma resolveIndex_in_range (messages : list Z) (idx : Z) :
  let L := Z.of_nat (length messages) in
  0 ≤ resolveIndex messages (Some idx) < L ↔ ¬ (idx >= L ∨ idx < - L).
Proof. unfold resolveIndex; simpl. case_decide; lia. Qed.

(** C2 (as the code has it). On a non-empty history of length L with a
    delete callback installed, [delete_by_index] resolves a negative index
    [idx] to [L + idx]; the resolved position is inside [0, L) exactly when
    neither [idx >= L] nor [idx < -L]; inside, the platform is asked once
    to delete the record at that position; outside, the request fails
    with the invalid-index error, whose text gives the count L and the
    bounds 0 and L-1, and the state, gateway log included, is as before. *)
Theorem delete_by_index_range (s : State) (chatId idx : Z)
    (txt : option string) (cb : DeleteCallback) :
  let messages := stored chatId s in
  let L := Z.of_nat (length messages) in
  let resolved := if decide (idx < 0) then L + idx else idx in
  let outcome := execute (mkArgs "delete_by_index" (Some idx) txt) chatId s in
  messages ≠ [] →
  deleteMessageCallback s = Some cb →
  (0 ≤ resolved < L ↔ ¬ (idx >= L ∨ idx < - L)) ∧
  (0 ≤ resolved < L →
     ∃ target, messages !! Z.to_nat resolved = Some target ∧
       gatewayLog outcome.2 = gatewayLog s ++ [DeleteMessage chatId target]) ∧
  (idx >= L ∨ idx < - L →
     outcome =
       (Normal (failed ("Invalid index. Have " +:+ pretty (length messages)
                          +:+ " messages (0-" +:+ pretty (L - 1) +:+ ")")),
        s)).
Proof.
  intros messages L resolved outcome Hne Hcb.
  assert (resolved = resolveIndex messages (Some idx)) as Hres by done.
  pose proof (resolveIndex_in_range messages idx) as Hrange; simpl in Hrange.
  fold L in Hrange. rewrite <- Hres in Hrange.
  split; [exact Hrange|].
  subst outcome. rewrite (execute_delete_by_index _ _ _ _ cb) by done.
  fold messages. rewrite <- Hres. fold L.
  split.
  - intros Hin. rewrite decide_True by done.
    destruct (lookup_lt_is_Some_2 messages (Z.to_nat resolved)) as [t Ht];
      [lia|].
    exists t. split; [done|].
    rewrite <- (Z2Nat.id resolved) at 1 by lia.
    rewrite (at_index_lookup _ _ _ Ht).
    unfold settleDelete. destruct (cb _ _ _) as [[]|]; reflexivity.
  - intros Hout. rewrite decide_False by (intros Hin; apply Hrange in Hin; tauto).
    reflexivity.
Qed.

Lemma delete_by_index_range_witness :
  stored 7 (scenarioWith (Normal true)) ≠ [] ∧
  (5 >= 3 ∨ 5 < - 3) ∧
  execute (mkArgs "delete_by_index" (Some 5) None) 7
    (scenarioWith (Normal true))
  = (Normal (failed "Invalid index. Have 3 messages (0-2)"),
     scenarioWith (Normal true)) ∧
  0 ≤ 3 + -2 < 3 ∧
  ∃ target, [201; 202; 203] !! 1%nat = Some target ∧
    gatewayLog (execute (mkArgs "delete_by_index" (Some (-2)) None) 7
                  (scenarioWith (Normal true))).2
    = [] ++ [DeleteMessage 7 target].
Proof.
  assert (stored 7 (scenarioWith (Normal true)) ≠ []) as Hne by done.
  assert (5 >= 3 ∨ 5 < - 3) as Hout by (left; lia).
  assert (0 ≤ 3 + -2 < 3) as Hin by lia.
  split; [exact Hne|]. split; [exact Hout|]. split; [|split; [exact Hin|]].
  - exact (proj2 (proj2 (delete_by_index_range (scenarioWith (Normal true))
                           7 5 None _ Hne eq_refl)) Hout).
  - exact (proj1 (proj2 (delete_by_index_range (scenarioWith (Normal true))
                           7 (-2) None _ Hne eq_refl)) Hin).
Defined.

(** C2 as stated fails when no delete callback is installed: the index is
    out of range, yet the error is the not-configured one. *)
Lemma delete_by_index_unconfigured_counterexample :
  stored 7 scenario = [201; 202; 203] ∧
  execute (mkArgs "delete_by_index" (Some 5) None) 7 scenario
  = (Normal (failed "Delete not configured"), scenario) ∧
  ¬ (5 >= 3 ∨ 5 < - 3 →
     execute (mkArgs "delete_by_index" (Some 5) None) 7 scenario
     = (Normal (failed "Invalid index. Have 3 messages (0-2)"), scenario)).
Proof.
  split; [reflexivity|]. split; [reflexivity|].
  intros Hclaim.
  assert (5 >= 3 ∨ 5 < - 3) as Hout by (left; lia).
  specialize (Hclaim Hout).
  discriminate Hclaim.
Qed.

(** The state components a settled delete leaves behind. *)
Lemma settleDelete_cases cb chatId target kept done_ rejected s :
  ∃ r s', settleDelete cb chatId target kept done_ rejected s = (Normal r, s') ∧
    gatewayLog s' = gatewayLog s ++ [DeleteMessage chatId target] ∧
    match cb (gatewayLog s) chatId target with
    | Normal true =>
        success r = true ∧
        recentMessages s' = <[chatId := kept]> (recentMessages s)
    | Normal false | Throw _ =>
        success r = false ∧ recentMessages s' = recentMessages s
    end.
Proof.
  unfold settleDelete. destruct (cb _ _ _) as [[]|]; eauto 10.
Qed.

(** C3. A delete changes the history only when the platform confirms it:
    either the request is refused before any call and the whole state is
    as before, or exactly one call is made for the record at the targeted
    position; if that call resolves to false or rejects, the histories are
    as before and a failure is reported; if it resolves to true, the
    history of the conversation is the old one without that position, the
    other records in their order, and success is reported. *)
Theorem delete_commits_only_on_success (s : State) (chatId : Z) (args : Args) :
  action args = "delete_last" ∨ action args = "delete_by_index" →
  let messages := stored chatId s in
  let i := if String.eqb (action args) "delete_last"
           then (length messages - 1)%nat
           else Z.to_nat (resolveIndex messages (index args)) in
  ∃ r s', execute args chatId s = (Normal r, s') ∧
    ((s' = s ∧ success r = false)
     ∨ ∃ cb target,
         deleteMessageCallback s = Some cb ∧
         messages !! i = Some target ∧
         gatewayLog s' = gatewayLog s ++ [DeleteMessage chatId target] ∧
         match cb (gatewayLog s) chatId target with
         | Normal true =>
             success r = true ∧
             recentMessages s'
             = <[chatId := take i messages ++ drop (S i) messages]>
                 (recentMessages s)
         | Normal false | Throw _ =>
             success r = false ∧ recentMessages s' = recentMessages s
         end).
Proof.
  intros Hact messages i. destruct args as [act idx txt]; simpl in *.
  destruct (decide (messages = [])) as [Hempty|Hne].
  { rewrite execute_no_history by done. eauto 10. }
  destruct (deleteMessageCallback s) as [cb|] eqn:Hcb; cycle 1.
  { rewrite execute_delete_unconfigured by done. eauto 10. }
  destruct Hact as [-> | ->]; simpl in i.
  - destruct (nonempty_last messages Hne) as [target Hlast].
    rewrite (execute_delete_last _ _ _ _ cb target) by done.
    fold messages. rewrite pop_take.
    destruct (settleDelete_cases cb chatId target
                (take (length messages - 1) messages)
                "Deleted last message"
                "Failed to delete (maybe already deleted or too old)" s)
      as (r & s' & -> & Hlog & Hcases).
    exists r, s'. split; [done|]. right. exists cb, target.
    split; [done|]. split.
    { rewrite last_lookup in Hlast. subst i.
      by replace (length messages - 1)%nat with (pred (length messages))
        by lia. }
    split; [done|]. subst i. by rewrite take_drop_last.
  - rewrite (execute_delete_by_index _ _ _ _ cb) by done. fold messages.
    case_decide as Hin; [|eauto 10].
    destruct (lookup_lt_is_Some_2 messages i) as [target Ht];
      [subst i; lia|].
    replace (at_index messages (resolveIndex messages idx)) with target.
    2:{ symmetry. rewrite <- (Z2Nat.id (resolveIndex messages idx)) by lia.
        by apply at_index_lookup. }
    destruct (settleDelete_cases cb chatId target
                (splice1 (Z.to_nat (resolveIndex messages idx)) messages)
                ("Deleted message at index "
                   +:+ pretty (resolveIndex messages idx))
                "Failed to delete" s)
      as (r & s' & -> & Hlog & Hcases).
    exists r, s'. split; [done|]. right. by exists cb, target.
Qed.

Lemma delete_commits_only_on_success_witness :
  let args := mkArgs "delete_by_index" (Some 0) None in
  let s := scenarioWith (Normal true) in
  (action args = "delete_last" ∨ action args = "delete_by_index") ∧
  ∃ r s', execute args 7 s = (Normal r, s') ∧
    ((s' = s ∧ success r = false)
     ∨ ∃ cb target,
         deleteMessageCallback s = Some cb ∧
         [201; 202; 203] !! 0%nat = Some target ∧
         gatewayLog s' = gatewayLog s ++ [DeleteMessage 7 target] ∧
         match cb (gatewayLog s) 7 target with
         | Normal true =>
             success r = true ∧
             recentMessages s' = <[7 := [202; 203]]> (recentMessages s)
         | Normal false | Throw _ =>
             success r = false ∧ recentMessages s' = recentMessages s
         end).
Proof.
  intros args s.
  assert (action args = "delete_last" ∨ action args = "delete_by_index")
    as Hact by (by right).
  split; [exact Hact|].
  exact (delete_commits_only_on_success s 7 args Hact).
Defined.

Lemma resolveIndex_newest (messages : list Z) :
  messages ≠ [] →
  resolveIndex messages (Some (-1)) = Z.of_nat (length messages) - 1 ∧
  0 ≤ resolveIndex messages (Some (-1)) < Z.of_nat (length messages).
Proof.
  intros Hne. unfold resolveIndex; simpl.
  destruct messages; [done | simpl length; lia].
Qed.

(** [delete_by_index] at [-1] runs the same call and leaves the same state
    as [delete_last]; only the wording of the report differs. *)
Lemma delete_newest_by_index idx txt txt' chatId s :
  ∃ r r' s',
    execute (mkArgs "delete_last" idx txt) chatId s = (Normal r, s') ∧
    execute (mkArgs "delete_by_index" (Some (-1)) txt') chatId s
    = (Normal r', s') ∧
    success r = success r' ∧
    gatewayLog s'
    = gatewayLog s ++
        match deleteMessageCallback s, last (stored chatId s) with
        | Some _, Some newest => [DeleteMessage chatId newest]
        | _, _ => []
        end ∧
    stored chatId s'
    = if success r then take (length (stored chatId s) - 1) (stored chatId s)
      else stored chatId s.
Proof.
  destruct (decide (stored chatId s = [])) as [Hempty|Hne].
  { rewrite !execute_no_history by done. eexists _, _, _.
    repeat split. rewrite Hempty; simpl.
    destruct (deleteMessageCallback s); by rewrite app_nil_r. }
  destruct (nonempty_last _ Hne) as [newest Hlast]. rewrite Hlast.
  destruct (deleteMessageCallback s) as [cb|] eqn:Hcb; cycle 1.
  { rewrite !execute_delete_unconfigured by first [done | by left | by right].
    eexists _, _, _. repeat split. by rewrite app_nil_r. }
  rewrite (execute_delete_last _ _ _ _ cb newest) by done.
  rewrite (execute_delete_by_index _ _ _ _ cb) by done.
  destruct (resolveIndex_newest _ Hne) as [Hres Hin].
  rewrite decide_True by done. rewrite Hres, (at_index_last _ _ Hlast).
  replace (Z.to_nat (Z.of_nat (length (stored chatId s)) - 1))
    with (length (stored chatId s) - 1)%nat by lia.
  unfold splice1. rewrite take_drop_last, <- pop_take by done.
  unfold settleDelete. destruct (cb _ _ _) as [[]|]; eexists _, _, _;
    (repeat split; simpl; try done).
  by rewrite stored_insert, pop_take.
Qed.

(** C4. On one and the same state, [delete_by_index] with index [-1] and
    [delete_last] ask the platform to delete the same record, the newest
    one, and end in the same state, whatever the platform answers. *)
Theorem delete_last_is_index_minus_one (s : State) (chatId : Z)
    (idx : option Z) (txt txt' : option string) :
  ∃ r r' s',
    execute (mkArgs "delete_last" idx txt) chatId s = (Normal r, s') ∧
    execute (mkArgs "delete_by_index" (Some (-1)) txt') chatId s
    = (Normal r', s') ∧
    success r = success r' ∧
    gatewayLog s'
    = gatewayLog s ++
        match deleteMessageCallback s, last (stored chatId s) with
        | Some _, Some newest => [DeleteMessage chatId newest]
        | _, _ => []
        end ∧
    stored chatId s'
    = if success r then take (length (stored chatId s) - 1) (stored chatId s)
      else stored chatId s.
Proof. apply delete_newest_by_index. Qed.

(** C10. [delete_by_index] without an index is [delete_by_index] with
    index [-1]: same report, same state; on a history with a newest record
    and a delete callback installed it asks the platform to delete that
    record, and it never reports a missing parameter. *)
Theorem delete_by_index_defaults_to_newest (s : State) (chatId : Z)
    (txt : option string) :
  execute (mkArgs "delete_by_index" None txt) chatId s
  = execute (mkArgs "delete_by_index" (Some (-1)) txt) chatId s ∧
  ∃ r s',
    execute (mkArgs "delete_by_index" None txt) chatId s = (Normal r, s') ∧
    gatewayLog s'
    = gatewayLog s ++
        match deleteMessageCallback s, last (stored chatId s) with
        | Some _, Some newest => [DeleteMessage chatId newest]
        | _, _ => []
        end.
Proof.
  split; [reflexivity|].
  destruct (delete_newest_by_index None txt txt chatId s)
    as (r & r' & s' & _ & Hidx & _ & Hlog & _).
  by exists r', s'.
Qed.

(** C5. With an empty history every request, whatever its action, fails
    with the no-history error and leaves the state, gateway log included,
    untouched; the callbacks are not even looked at, so this is also the
    answer when none is installed. *)
Theorem no_history_before_gateway (s : State) (chatId : Z) (args : Args) :
  getRecentMessages chatId s = [] →
  execute args chatId s
  = (Normal {| success := false; output := None;
               error := Some "No recent messages to manage" |}, s).
Proof. apply execute_no_history. Qed.

Lemma no_history_before_gateway_witness :
  getRecentMessages 7 initial = [] ∧
  deleteMessageCallback initial = None ∧
  execute (mkArgs "delete_last" None None) 7 initial
  = (Normal {| success := false; output := None;
               error := Some "No recent messages to manage" |}, initial).
Proof.
  split; [reflexivity|]. split; [reflexivity|].
  exact (no_history_before_gateway initial 7
           (mkArgs "delete_last" None None) eq_refl).
Defined.

(** C6. [edit_last] never changes the history: whether the request is
    refused, or the platform confirms, declines or rejects the edit, the
    map of histories after the call is the map before it. *)
Theorem edit_last_keeps_history (s : State) (chatId : Z)
    (idx : option Z) (txt : option string) :
  ∃ r s',
    execute (mkArgs "edit_last" idx txt) chatId s = (Normal r, s') ∧
    recentMessages s' = recentMessages s ∧
    getRecentMessages chatId s' = getRecentMessages chatId s.
Proof.
  destruct (decide (stored chatId s = [])) as [Hempty|Hne].
  { rewrite execute_no_history by done. eauto. }
  destruct (editMessageCallback s) as [cb|] eqn:Hcb; cycle 1.
  { rewrite execute_edit_unconfigured by done. eauto. }
  destruct (truthy txt) as [newText|] eqn:Htxt; cycle 1.
  { rewrite (execute_edit_no_text _ _ _ _ cb) by done. eauto. }
  destruct (nonempty_last _ Hne) as [target Hlast].
  rewrite (execute_edit_last _ _ _ _ cb target newText) by done.
  eauto.
Qed.

(** C7 (as the code has it). On a non-empty history, [edit_last] with a
    missing or empty [new_text] fails without calling the platform and
    leaves the state untouched; the error is the missing-content one when
    an edit callback is installed, and the not-configured one otherwise,
    because the callback is checked first. *)
Theorem edit_last_missing_text (s : State) (chatId : Z)
    (idx : option Z) (txt : option string) :
  getRecentMessages chatId s ≠ [] →
  txt = None ∨ txt = Some "" →
  execute (mkArgs "edit_last" idx txt) chatId s
  = (Normal (failed (match editMessageCallback s with
                     | Some _ => "new_text required for edit"
                     | None => "Edit not configured"
                     end)), s).
Proof.
  intros Hne Htxt.
  destruct (editMessageCallback s) as [cb|] eqn:Hcb.
  - apply (execute_edit_no_text _ _ _ _ cb); [done | done |].
    by destruct Htxt as [-> | ->].
  - by apply execute_edit_unconfigured.
Qed.

Lemma edit_last_missing_text_witness :
  getRecentMessages 7 (scenarioWith (Normal true)) ≠ [] ∧
  execute (mkArgs "edit_last" None (Some "")) 7 (scenarioWith (Normal true))
  = (Normal (failed "new_text required for edit"),
     scenarioWith (Normal true)).
Proof.
  assert (getRecentMessages 7 (scenarioWith (Normal true)) ≠ []) as Hne
    by done.
  split; [exact Hne|].
  exact (edit_last_missing_text (scenarioWith (Normal true)) 7 None
           (Some "") Hne (or_intror eq_refl)).
Defined.

(** C7 as stated fails when no edit callback is installed: the history is
    non-empty and [new_text] is missing, yet the error is the
    not-configured one. *)
Lemma edit_last_unconfigured_counterexample :
  getRecentMessages 7 scenario = [201; 202; 203] ∧
  execute (mkArgs "edit_last" None None) 7 scenario
  = (Normal (failed "Edit not configured"), scenario) ∧
  execute (mkArgs "edit_last" None None) 7 scenario
  ≠ (Normal (failed "new_text required for edit"), scenario).
Proof. split; [reflexivity|]. split; [reflexivity|]. discriminate. Qed.

(** C8. Every call of [execute] completes normally, and its result has
    [output] and no [error] when [success] is true, [error] and no
    [output] when it is false. *)
Theorem execute_result_well_formed (s : State) (chatId : Z) (args : Args) :
  ∃ r s',
    execute args chatId s = (Normal r, s') ∧
    if success r then is_Some (output r) ∧ error r = None
    else output r = None ∧ is_Some (error r).
Proof.
  unfold execute, bind, gets, try_catch, callDelete, callEdit, modify, ret.
  repeat (case_decide || case_match || simplify_eq/=);
    eexists _, _; (split; [reflexivity|]); simpl; eauto.
Qed.

(** ** The scenarios of the specification, evaluated *)

Example scenario_delete_oldest :
  let '(r, s') := execute (mkArgs "delete_by_index" (Some 0) None) 7
                    (scenarioWith (Normal true)) in
  r = Normal (succeeded "Deleted message at index 0") ∧
  getRecentMessages 7 s' = [202; 203] ∧
  gatewayLog s' = [DeleteMessage 7 201].
Proof. by vm_compute. Qed.

Example scenario_delete_declined :
  let '(r, s') := execute (mkArgs "delete_by_index" (Some (-2)) None) 7
                    (scenarioWith (Normal false)) in
  r = Normal (failed "Failed to delete") ∧
  getRecentMessages 7 s' = [201; 202; 203] ∧
  gatewayLog s' = [DeleteMessage 7 202].
Proof. by vm_compute. Qed.

Example scenario_delete_unconfigured :
  execute (mkArgs "delete_last" None None) 7 scenario
  = (Normal (failed "Delete not configured"), scenario).
Proof. reflexivity. Qed.

Example scenario_edit_outcomes :
  let edit answer :=
    let '(r, s') := execute (mkArgs "edit_last" None (Some "fixed")) 7
                      (scenarioWith answer) in
    (r, getRecentMessages 7 s', gatewayLog s') in
  edit (Normal true)
  = (Normal (succeeded "Edited last message"), [201; 202; 203],
     [EditMessage 7 203 "fixed"]) ∧
  edit (Normal false)
  = (Normal (failed "Failed to edit (maybe too old or contains media)"),
     [201; 202; 203], [EditMessage 7 203 "fixed"]) ∧
  edit (Throw "message can't be edited")
  = (Normal (failed "Edit failed: message can't be edited"),
     [201; 202; 203], [EditMessage 7 203 "fixed"]).
Proof. by vm_compute. Qed.

End ManageMessageFacts.

(** * Properties of search_web *)
Module WebFacts.
Import Web.

(** ** Truncation *)

Lemma slice0_length (n : nat) (s : string) :
  String.length (slice0 n s) = (n `min` String.length s)%nat.
Proof.
  unfold slice0. revert s.
  induction n as [|n IH]; intros [|c s]; simpl; auto.
Qed.

Lemma slice0_prefix (n : nat) (s : string) :
  ∃ rest, s = slice0 n s +:+ rest.
Proof.
  unfold slice0. revert s. induction n as [|n IH]; intros [|c s]; simpl.
  - by exists "".
  - by exists (String c s).
  - by exists "".
  - destruct (IH s) as [rest Hrest]. exists rest.
    change (String c s = String c (substring 0 n s +:+ rest)). by f_equal.
Qed.

Section Providers.
Variable fetch : string → string → Completion Response.
Variable tavilySearch : string → string → Completion (list TavilyEntry).

(** ** The providers: one request each, whatever the outcome *)

Lemma searchZai_log query apiKey log :
  searchZai fetch query apiKey log
  = ((searchZai fetch query apiKey []).1, log ++ [ZaiRequest query apiKey]).
Proof.
  unfold searchZai, bind, doFetch, throw, ret; simpl.
  destruct (fetch query apiKey) as [response|e]; [|done].
  destruct (ok response); simpl; [|done].
  by destruct (json response).
Qed.

Lemma searchTavily_log query apiKey log :
  searchTavily tavilySearch query apiKey log
  = ((searchTavily tavilySearch query apiKey []).1,
     log ++ [TavilyRequest query apiKey]).
Proof.
  unfold searchTavily, bind, doTavily, ret; simpl.
  by destruct (tavilySearch query apiKey).
Qed.

Lemma run_tavily query tavilyKey log :
  try_catch
    (results ←' (results ←' searchTavily tavilySearch query tavilyKey;
                 ret (Some results));
     match results with
     | None =>
       ret (failed "No search API configured (ZAI_API_KEY or TAVILY_API_KEY)")
     | Some results => ret (present results)
     end)
    (λ e, ret (failed e)) log
  = (Normal (report (searchTavily tavilySearch query tavilyKey []).1),
     log ++ [TavilyRequest query tavilyKey]).
Proof.
  unfold try_catch, bind, ret. rewrite searchTavily_log.
  by destruct (searchTavily tavilySearch query tavilyKey []).1.
Qed.

(** C9. [executeSearchWeb] asks Z.AI first when its key is set and
    reports its results when it answers; when Z.AI fails, or its key is
    not set, it asks Tavily if that key is set and reports Tavily's
    outcome; when Z.AI fails and no Tavily key is set it reports
    Z.AI's error; when neither key is set it reports the configuration
    error and sends no request.  A non-empty result list is reported as
    the entries joined by a blank line, entry [i] (counted from 0)
    starting with [[i+1]] and ending with the first 400 characters of
    its content. *)
Theorem search_web_fallback (query : string)
    (zaiApiKey tavilyApiKey : option string) (log : list Event) :
  let primary := λ key, (searchZai fetch query key []).1 in
  let secondary := λ key, (searchTavily tavilySearch query key []).1 in
  let run :=
    executeSearchWeb fetch tavilySearch query zaiApiKey tavilyApiKey log in
  let failing := ConsoleLog "[search] Z.AI failed, trying Tavily..." in
  (truthy zaiApiKey = None → truthy tavilyApiKey = None →
     run = (Normal (failed
              "No search API configured (ZAI_API_KEY or TAVILY_API_KEY)"),
            log)) ∧
  (∀ zaiKey results,
     truthy zaiApiKey = Some zaiKey → primary zaiKey = Normal results →
     run = (Normal (present results), log ++ [ZaiRequest query zaiKey])) ∧
  (∀ zaiKey e tavilyKey,
     truthy zaiApiKey = Some zaiKey → primary zaiKey = Throw e →
     truthy tavilyApiKey = Some tavilyKey →
     run = (Normal (report (secondary tavilyKey)),
            log ++ [ZaiRequest query zaiKey; failing;
                    TavilyRequest query tavilyKey])) ∧
  (∀ zaiKey e,
     truthy zaiApiKey = Some zaiKey → primary zaiKey = Throw e →
     truthy tavilyApiKey = None →
     run = (Normal (failed e), log ++ [ZaiRequest query zaiKey; failing])) ∧
  (∀ tavilyKey,
     truthy zaiApiKey = None → truthy tavilyApiKey = Some tavilyKey →
     run = (Normal (report (secondary tavilyKey)),
            log ++ [TavilyRequest query tavilyKey])) ∧
  (∀ results, results ≠ [] →
     present results
     = succeeded (String.concat (newline +:+ newline)
                    (imap renderResult results))) ∧
  (∀ i r, ∃ shown rest,
     renderResult i r
     = "[" +:+ pretty (i + 1)%nat +:+ "] " +:+ title r
         +:+ match truthy (date r) with
             | Some d => " (" +:+ d +:+ ")"
             | None => ""
             end
         +:+ newline +:+ url r +:+ newline +:+ shown ∧
     content r = shown +:+ rest ∧
     String.length shown = (400 `min` String.length (content r))%nat).
Proof.
  intros primary secondary run failing. subst run.
  unfold executeSearchWeb, obtain.
  repeat split.
  - intros -> ->. reflexivity.
  - intros zaiKey results -> Hprimary.
    unfold try_catch, bind, ret. rewrite searchZai_log.
    fold (primary zaiKey). by rewrite Hprimary.
  - intros zaiKey e tavilyKey -> Hprimary ->.
    unfold try_catch, bind, ret, consoleLog, modify.
    rewrite searchZai_log. fold (primary zaiKey). rewrite Hprimary.
    rewrite searchTavily_log. fold (secondary tavilyKey).
    rewrite <- !app_assoc; simpl.
    by destruct (secondary tavilyKey).
  - intros zaiKey e -> Hprimary ->.
    unfold try_catch, bind, ret, consoleLog, modify, throw.
    rewrite searchZai_log. fold (primary zaiKey). rewrite Hprimary.
    by rewrite <- !app_assoc.
  - intros tavilyKey -> ->. apply run_tavily.
  - intros results Hne. unfold present, render.
    rewrite decide_False; [done|]. by destruct results.
  - intros i r. exists (slice0 400 (content r)).
    destruct (slice0_prefix 400 (content r)) as [rest Hrest].
    exists rest. split; [reflexivity|]. split; [done|].
    apply slice0_length.
Qed.
End Providers.

Lemma search_web_fallback_witness :
  (truthy None = None ∧ truthy (Some "") = None ∧
   executeSearchWeb zaiUp tavilyLong "rocq" None (Some "") []
   = (Normal (failed
        "No search API configured (ZAI_API_KEY or TAVILY_API_KEY)"), [])) ∧
  (truthy (Some "zk") = Some "zk" ∧
   executeSearchWeb zaiUp tavilyLong "rocq" (Some "zk") (Some "tk") []
   = (Normal (succeeded
        ("[1] Rocq (2025-03-12)" +:+ newline +:+ "https://rocq-prover.org"
           +:+ newline +:+ "The Rocq Prover" +:+ newline +:+ newline
           +:+ "[2] stdpp" +:+ newline
           +:+ "https://gitlab.mpi-sws.org/iris/stdpp" +:+ newline
           +:+ "An extended standard library")),
      [ZaiRequest "rocq" "zk"])) ∧
  (truthy (Some "tk") = Some "tk" ∧
   (searchZai zaiDown "rocq" "zk" []).1 = Throw "Z.AI error: 500" ∧
   executeSearchWeb zaiDown tavilyLong "rocq" (Some "zk") (Some "tk") []
   = (Normal (succeeded
        ("[1] Digits" +:+ newline +:+ "https://example.org/digits"
           +:+ newline +:+ String.concat "" (replicate 40 tenDigits))),
      [ZaiRequest "rocq" "zk";
       ConsoleLog "[search] Z.AI failed, trying Tavily...";
       TavilyRequest "rocq" "tk"])).
Proof.
  split; [|split].
  - split; [reflexivity|]. split; [reflexivity|].
    exact (proj1 (search_web_fallback zaiUp tavilyLong "rocq" None (Some "")
                    []) eq_refl eq_refl).
  - split; [reflexivity|].
    exact (proj1 (proj2 (search_web_fallback zaiUp tavilyLong "rocq"
                           (Some "zk") (Some "tk") []))
             "zk" _ eq_refl eq_refl).
  - split; [reflexivity|]. split; [reflexivity|].
    exact (proj1 (proj2 (proj2 (search_web_fallback zaiDown tavilyLong "rocq"
                                  (Some "zk") (Some "tk") [])))
             "zk" "Z.AI error: 500" "tk" eq_refl eq_refl eq_refl).
Defined.

End WebFacts.

(** * More properties of manage_message *)
Module SessionFacts.
Import ManageMessage ManageMessageFacts Session.

(** ** The dispatcher as a whole *)

Lemma execute_unknown act idx txt chatId s :
  stored chatId s ≠ [] →
  act ≠ "delete_last" → act ≠ "delete_by_index" → act ≠ "edit_last" →
  execute (mkArgs act idx txt) chatId s
  = (Normal (failed ("Unknown action: " +:+ act)), s).
Proof.
  intros Hne H1 H2 H3. unfold execute, bind, gets.
  case_decide as Hlen.
  { destruct (stored chatId s); [done | discriminate]. }
  simpl.
  apply String.eqb_neq in H1, H2, H3. by rewrite H1, H2, H3.
Qed.

(** Every call of [execute] is of one of three kinds: refused with the state
    untouched; one edit request for the newest record; one delete request
    for a record of the history, which is removed when the platform
    confirms. *)
Lemma execute_cases args chatId s :
  let messages := stored chatId s in
  ∃ r s', execute args chatId s = (Normal r, s') ∧
    ((s' = s ∧ success r = false)
     ∨ (∃ target text,
          action args = "edit_last" ∧ last messages = Some target ∧
          truthy (new_text args) = Some text ∧
          s' = logged (EditMessage chatId target text) s)
     ∨ (∃ i target,
          (action args = "delete_last" ∨ action args = "delete_by_index") ∧
          messages !! i = Some target ∧
          ((s' = logged (DeleteMessage chatId target) s ∧ success r = false)
           ∨ (s' = with_recentMessages (insert chatId (delete i messages))
                     (logged (DeleteMessage chatId target) s)
              ∧ success r = true)))).
Proof.
  intros messages. destruct args as [act idx txt].
  destruct (decide (messages = [])) as [Hempty|Hne].
  { rewrite execute_no_history by done. eauto 10. }
  destruct (nonempty_last messages Hne) as [newest Hlast].
  destruct (decide (act = "delete_last")) as [->|H1].
  { destruct (deleteMessageCallback s) as [cb|] eqn:Hcb; cycle 1.
    { rewrite execute_delete_unconfigured by first [done | by left].
      eauto 10. }
    rewrite (execute_delete_last _ _ _ _ cb newest) by done.
    fold messages. rewrite pop_take, <- (take_drop_last messages Hne).
    rewrite <- delete_take_drop.
    assert (messages !! (length messages - 1)%nat = Some newest) as Hi.
    { rewrite last_lookup in Hlast.
      by replace (length messages - 1)%nat with (pred (length messages))
        by lia. }
    unfold settleDelete. destruct (cb _ _ _) as [[]|];
      eexists _, _; (split; [reflexivity|]); right; right;
      exists (length messages - 1)%nat, newest; simpl; eauto 10. }
  destruct (decide (act = "delete_by_index")) as [->|H2].
  { destruct (deleteMessageCallback s) as [cb|] eqn:Hcb; cycle 1.
    { rewrite execute_delete_unconfigured by first [done | by right].
      eauto 10. }
    rewrite (execute_delete_by_index _ _ _ _ cb) by done. fold messages.
    case_decide as Hin; [|eauto 10].
    set (i := Z.to_nat (resolveIndex messages idx)).
    destruct (lookup_lt_is_Some_2 messages i) as [target Ht]; [subst i; lia|].
    replace (at_index messages (resolveIndex messages idx)) with target.
    2:{ symmetry. rewrite <- (Z2Nat.id (resolveIndex messages idx)) by lia.
        by apply at_index_lookup. }
    unfold splice1. rewrite <- delete_take_drop.
    unfold settleDelete. destruct (cb _ _ _) as [[]|];
      eexists _, _; (split; [reflexivity|]); right; right;
      exists i, target; simpl; eauto 10. }
  destruct (decide (act = "edit_last")) as [->|H3].
  { destruct (editMessageCallback s) as [cb|] eqn:Hcb; cycle 1.
    { rewrite execute_edit_unconfigured by done. eauto 10. }
    destruct (truthy txt) as [text|] eqn:Htxt; cycle 1.
    { rewrite (execute_edit_no_text _ _ _ _ cb) by done. eauto 10. }
    rewrite (execute_edit_last _ _ _ _ cb newest text) by done.
    eexists _, _; split; [reflexivity|]. right; left. eauto 10. }
  rewrite execute_unknown by done. eauto 10.
Qed.

Lemma stored_logged chatId call s : stored chatId (logged call s) = stored chatId s.
Proof. reflexivity. Qed.

(** X3. [execute] touches no conversation but its own, and never the
    callbacks. *)
Theorem execute_touches_own_chat_only (args : Args) (chatId : Z) (s : State) :
  let s' := (execute args chatId s).2 in
  delete chatId (recentMessages s') = delete chatId (recentMessages s) ∧
  deleteMessageCallback s' = deleteMessageCallback s ∧
  editMessageCallback s' = editMessageCallback s.
Proof.
  destruct (execute_cases args chatId s) as (r & s' & Hrun & Hcases).
  rewrite Hrun; simpl.
  destruct Hcases as [[-> _] | [(t & x & _ & _ & _ & ->)
    | (i & t & _ & _ & [[-> _] | [-> _]])]]; simpl; try done.
  split; [|done]. by rewrite delete_insert_eq.
Qed.

(** X4. [execute] never adds to a history and removes at most one record:
    the history after the call is the old one with at most one position
    taken out, the rest in order; it is shorter, by exactly one, only when
    the call reports success. *)
Theorem execute_only_shrinks (args : Args) (chatId : Z) (s : State) :
  let before := getRecentMessages chatId s in
  let after := getRecentMessages chatId (execute args chatId s).2 in
  after `sublist_of` before ∧
  (after = before
   ∨ ∃ r, (execute args chatId s).1 = Normal r ∧ success r = true ∧
          length before = S (length after)).
Proof.
  unfold getRecentMessages. cbv zeta.
  destruct (execute_cases args chatId s) as (r & s' & Hrun & Hcases).
  rewrite Hrun. cbn [fst snd].
  destruct Hcases as [[-> _] | [(t & x & _ & _ & _ & ->)
    | (i & t & _ & Hi & [[-> _] | [-> Hok]])]];
    rewrite ?stored_insert, ?stored_logged; try (split; [done | by left]).
  split; [apply sublist_delete|]. right. exists r.
  pose proof (lookup_lt_Some _ _ _ Hi). rewrite length_delete by eauto.
  split; [done|]. split; [done|]. lia.
Qed.

(** X5. One call of [execute] sends the platform at most one request, for
    its own conversation and for an identifier of that conversation's
    history: a delete request only under a delete action, an edit request
    only under [edit_last], for the newest record and with the non-empty
    [new_text] given. *)
Theorem execute_one_request_for_own_message (args : Args) (chatId : Z)
    (s : State) :
  let messages := getRecentMessages chatId s in
  let s' := (execute args chatId s).2 in
  gatewayLog s' = gatewayLog s
  ∨ (∃ target,
       target ∈ messages ∧
       (action args = "delete_last" ∨ action args = "delete_by_index") ∧
       gatewayLog s' = gatewayLog s ++ [DeleteMessage chatId target])
  ∨ (∃ target text,
       last messages = Some target ∧ action args = "edit_last" ∧
       new_text args = Some text ∧ text ≠ "" ∧
       gatewayLog s' = gatewayLog s ++ [EditMessage chatId target text]).
Proof.
  unfold getRecentMessages. cbv zeta.
  destruct (execute_cases args chatId s) as (r & s' & Hrun & Hcases).
  rewrite Hrun. cbn [snd].
  destruct Hcases as [[-> _] | [(t & x & Hact & Hlast & Htxt & ->)
    | (i & t & Hact & Hi & [[-> _] | [-> _]])]].
  - by left.
  - right; right. exists t, x. repeat split; try done.
    + by destruct (new_text args) as [[|??]|]; simplify_eq/=.
    + intros ->. by destruct (new_text args) as [[|??]|].
  - right; left. exists t. split; [by eapply list_elem_of_lookup_2|]. done.
  - right; left. exists t. split; [by eapply list_elem_of_lookup_2|]. done.
Qed.

(** X6. With a non-empty history and the needed callback not installed, a
    delete action fails with [Delete not configured] and [edit_last] with
    [Edit not configured], whatever the other arguments are, and the state
    is untouched: nothing is sent. *)
Theorem capability_not_configured (s : State) (chatId : Z)
    (idx : option Z) (txt : option string) :
  getRecentMessages chatId s ≠ [] →
  (deleteMessageCallback s = None →
     execute (mkArgs "delete_last" idx txt) chatId s
     = (Normal (failed "Delete not configured"), s) ∧
     execute (mkArgs "delete_by_index" idx txt) chatId s
     = (Normal (failed "Delete not configured"), s)) ∧
  (editMessageCallback s = None →
     execute (mkArgs "edit_last" idx txt) chatId s
     = (Normal (failed "Edit not configured"), s)).
Proof.
  intros Hne. split.
  - intros Hcb.
    split; apply execute_delete_unconfigured;
      first [done | by left | by right].
  - intros Hcb. by apply execute_edit_unconfigured.
Qed.

Lemma capability_not_configured_witness :
  getRecentMessages 7 scenario ≠ [] ∧
  deleteMessageCallback scenario = None ∧
  editMessageCallback scenario = None ∧
  execute (mkArgs "delete_by_index" (Some 1) None) 7 scenario
  = (Normal (failed "Delete not configured"), scenario) ∧
  execute (mkArgs "edit_last" None (Some "fixed")) 7 scenario
  = (Normal (failed "Edit not configured"), scenario).
Proof.
  assert (getRecentMessages 7 scenario ≠ []) as Hne by done.
  split; [exact Hne|]. split; [reflexivity|]. split; [reflexivity|]. split.
  - exact (proj2 (proj1 (capability_not_configured scenario 7 (Some 1) None
                           Hne) eq_refl)).
  - exact (proj2 (capability_not_configured scenario 7 None (Some "fixed")
                    Hne) eq_refl).
Defined.

(** X7. On a non-empty history an action other than the three known ones is
    refused with an error that names it; the state is untouched. *)
Theorem unknown_action_rejected (s : State) (chatId : Z) (args : Args) :
  getRecentMessages chatId s ≠ [] →
  action args ∉ ["delete_last"; "delete_by_index"; "edit_last"] →
  execute args chatId s
  = (Normal (failed ("Unknown action: " +:+ action args)), s).
Proof.
  intros Hne Hact. destruct args as [act idx txt]; simpl in *.
  apply execute_unknown; [done|..]; intros ->; apply Hact; set_solver.
Qed.

Lemma unknown_action_rejected_witness :
  getRecentMessages 7 scenario ≠ [] ∧
  execute (mkArgs "delete_all" None None) 7 scenario
  = (Normal (failed "Unknown action: delete_all"), scenario).
Proof.
  assert (getRecentMessages 7 scenario ≠ []) as Hne by done.
  split; [exact Hne|].
  refine (unknown_action_rejected scenario 7 (mkArgs "delete_all" None None)
            Hne _).
  simpl. rewrite !elem_of_cons, elem_of_nil.
  intros [H|[H|[H|[]]]]; discriminate H.
Defined.

(** X8. [edit_last] with a non-empty history, an edit callback installed
    and a non-empty [new_text] sends one edit request for the newest record
    with that text, changes nothing else, and reports what the platform
    said: success exactly when it confirmed, and the thrown message after
    [Edit failed: ] when it rejected. *)
Theorem edit_last_reports_platform (s : State) (chatId target : Z)
    (idx : option Z) (text : string) (cb : EditCallback) :
  editMessageCallback s = Some cb →
  last (getRecentMessages chatId s) = Some target →
  text ≠ "" →
  ∃ r,
    execute (mkArgs "edit_last" idx (Some text)) chatId s
    = (Normal r, logged (EditMessage chatId target text) s) ∧
    (success r = true ↔ cb (gatewayLog s) chatId target text = Normal true) ∧
    (∀ e, cb (gatewayLog s) chatId target text = Throw e →
          error r = Some ("Edit failed: " +:+ e)).
Proof.
  intros Hcb Hlast Htext.
  rewrite (execute_edit_last _ _ _ _ cb target text); try done.
  - eexists; split; [reflexivity|].
    destruct (cb _ _ _ _) as [[]|]; simpl; split; try done;
      intros; simplify_eq; done.
  - by destruct text.
Qed.

Lemma edit_last_reports_platform_witness :
  let s := scenarioWith (Throw "message is not modified") in
  editMessageCallback s = Some (λ _ _ _ _, Throw "message is not modified") ∧
  last (getRecentMessages 7 s) = Some 203 ∧
  "fixed" ≠ "" ∧
  ∃ r,
    execute (mkArgs "edit_last" None (Some "fixed")) 7 s
    = (Normal r, logged (EditMessage 7 203 "fixed") s) ∧
    (success r = true ↔ @Throw bool "message is not modified" = Normal true) ∧
    (∀ e, @Throw bool "message is not modified" = Throw e →
          error r = Some ("Edit failed: " +:+ e)).
Proof.
  intros s.
  assert ("fixed" ≠ "") as Hne by discriminate.
  split; [reflexivity|]. split; [reflexivity|]. split; [exact Hne|].
  exact (edit_last_reports_platform s 7 203 None "fixed" _ eq_refl eq_refl Hne).
Defined.

(** X9. When the delete callback rejects, both delete actions report the
    thrown message after [Delete failed: ], and the histories are as
    before. *)
Theorem delete_rejection_is_reported (s : State) (chatId : Z)
    (args : Args) (cb : DeleteCallback) (e : Exn) :
  action args = "delete_last" ∨ action args = "delete_by_index" →
  deleteMessageCallback s = Some cb →
  (∀ target, cb (gatewayLog s) chatId target = Throw e) →
  ∃ r s',
    execute args chatId s = (Normal r, s') ∧
    recentMessages s' = recentMessages s ∧
    success r = false ∧
    (gatewayLog s' = gatewayLog s
     ∨ error r = Some ("Delete failed: " +:+ e)).
Proof.
  intros Hact Hcb Hthrow. destruct args as [act idx txt]; simpl in *.
  destruct (decide (stored chatId s = [])) as [Hempty|Hne].
  { rewrite execute_no_history by done. eauto 10. }
  destruct Hact as [-> | ->].
  - destruct (nonempty_last _ Hne) as [newest Hlast].
    rewrite (execute_delete_last _ _ _ _ cb newest) by done.
    unfold settleDelete. rewrite Hthrow. eauto 10.
  - rewrite (execute_delete_by_index _ _ _ _ cb) by done.
    case_decide; [|eauto 10].
    unfold settleDelete. rewrite Hthrow. eauto 10.
Qed.

Lemma delete_rejection_is_reported_witness :
  let s := scenarioWith (Throw "message to delete not found") in
  let args := mkArgs "delete_last" None None in
  (action args = "delete_last" ∨ action args = "delete_by_index") ∧
  ∃ r s',
    execute args 7 s = (Normal r, s') ∧
    recentMessages s' = recentMessages s ∧
    success r = false ∧
    (gatewayLog s' = gatewayLog s
     ∨ error r = Some ("Delete failed: " +:+ "message to delete not found")).
Proof.
  intros s args.
  assert (action args = "delete_last" ∨ action args = "delete_by_index")
    as Hact by (by left).
  split; [exact Hact|].
  exact (delete_rejection_is_reported s 7 args _
           "message to delete not found" Hact eq_refl (λ _, eq_refl)).
Defined.


(** ** Sequences of operations *)

(** One send, seen from the window of the newest [MAX_STORED] entries. *)
Lemma window_step (l rest : list Z) (messageId : Z) :
  (length l ≤ MAX_STORED)%nat →
  let l' := if decide (length (l ++ [messageId]) > MAX_STORED)%nat
            then shift (l ++ [messageId]) else l ++ [messageId] in
  drop (length (l' ++ rest) - MAX_STORED) (l' ++ rest)
  = drop (length (l ++ messageId :: rest) - MAX_STORED)
         (l ++ messageId :: rest).
Proof.
  intros Hlen. cbv zeta. unfold shift, MAX_STORED in *.
  case_decide as Hgt; rewrite length_app in Hgt; simpl in Hgt.
  - destruct l as [|x l]; simpl in *; [lia|].
    assert (length l = 19%nat) as Hl by lia.
    rewrite <- app_assoc; simpl. rewrite !length_app; simpl. rewrite Hl.
    replace (19 + S (length rest) - 20)%nat with (length rest) by lia.
    replace (S (19 + S (length rest)) - 20)%nat with (S (length rest))
      by lia.
    reflexivity.
  - by rewrite <- app_assoc.
Qed.

Lemma sentTo_cons_eq chatId messageId sends :
  sentTo chatId ((chatId, messageId) :: sends)
  = messageId :: sentTo chatId sends.
Proof. unfold sentTo. by rewrite filter_cons_True. Qed.

Lemma sentTo_cons_ne chatId other messageId sends :
  other ≠ chatId →
  sentTo chatId ((other, messageId) :: sends) = sentTo chatId sends.
Proof. intros Hne. unfold sentTo. by rewrite filter_cons_False. Qed.

(** X1. With sends to several conversations interleaved, the history of a
    conversation that was within capacity is the newest 20 of its old
    entries followed by the identifiers sent to it, in send order; what is
    sent to other conversations does not matter. *)
Theorem interleaved_sends_window (sends : list (Z * Z)) (chatId : Z)
    (s : State) :
  (length (getRecentMessages chatId s) ≤ 20)%nat →
  let all := getRecentMessages chatId s ++ sentTo chatId sends in
  getRecentMessages chatId (recordMany sends s) = drop (length all - 20) all.
Proof.
  unfold getRecentMessages. revert s.
  induction sends as [|[k messageId] sends IH]; intros s Hlen; cbv zeta.
  - simpl. rewrite app_nil_r.
    by replace (length (stored chatId s) - 20)%nat with 0%nat by lia.
  - change (recordMany ((k, messageId) :: sends) s)
      with (recordMany sends (recordBotMessage k messageId s)).
    destruct (decide (k = chatId)) as [->|Hne].
    + rewrite IH by by apply record_within_capacity.
      rewrite sentTo_cons_eq, stored_record. by apply window_step.
    + rewrite IH by by rewrite stored_record_ne.
      by rewrite sentTo_cons_ne, stored_record_ne.
Qed.

Lemma interleaved_sends_window_witness :
  (length (getRecentMessages 7 scenario) ≤ 20)%nat ∧
  getRecentMessages 7
    (recordMany [(8, 301); (7, 204); (8, 302); (7, 205)] scenario)
  = [201; 202; 203; 204; 205].
Proof.
  assert (length (getRecentMessages 7 scenario) ≤ 20)%nat as Hlen
    by (vm_compute; lia).
  split; [exact Hlen|].
  exact (interleaved_sends_window [(8, 301); (7, 204); (8, 302); (7, 205)]
           7 scenario Hlen).
Defined.

Lemma execute_length_le args chatId other s :
  (length (stored other (execute args chatId s).2)
     ≤ length (stored other s))%nat.
Proof.
  destruct (execute_cases args chatId s) as (r & s' & Hrun & Hcases).
  rewrite Hrun. cbn [snd].
  destruct Hcases as [[-> _] | [(t & x & _ & _ & _ & ->)
    | (i & t & _ & Hi & [[-> _] | [-> _]])]];
    rewrite ?stored_logged; try done.
  destruct (decide (chatId = other)) as [->|Hne].
  - rewrite stored_insert. apply sublist_length, sublist_delete.
  - by rewrite stored_insert_ne, stored_logged.
Qed.

Lemma step_within_capacity st s :
  (∀ chatId, length (stored chatId s) ≤ MAX_STORED)%nat →
  (∀ chatId, length (stored chatId (step s st)) ≤ MAX_STORED)%nat.
Proof.
  intros Hs chatId. destruct st as [k messageId|args k|cb|cb]; simpl.
  - destruct (decide (k = chatId)) as [->|Hne].
    + by apply record_within_capacity.
    + by rewrite stored_record_ne.
  - etrans; [apply execute_length_le | apply Hs].
  - apply Hs.
  - apply Hs.
Qed.

(** X2. Whatever a process does, in whatever order (sends, tool calls with
    any arguments and any platform behaviour, installing callbacks), no
    history ever holds more than 20 identifiers. *)
Theorem history_never_exceeds_capacity (steps : list Step) (chatId : Z) :
  (length (getRecentMessages chatId (run steps initial)) ≤ 20)%nat.
Proof.
  unfold getRecentMessages.
  cut (∀ s, (∀ k, length (stored k s) ≤ MAX_STORED)%nat →
            ∀ k, (length (stored k (run steps s)) ≤ MAX_STORED)%nat).
  { intros Hrun. apply Hrun. intros k. unfold stored, initial; simpl.
    rewrite lookup_empty; simpl. lia. }
  induction steps as [|st steps IH]; intros s Hs k; [apply Hs|].
  apply (IH (step s st)). by apply step_within_capacity.
Qed.

(** X10. Sending a message and then deleting the last one, with a platform
    that confirms, asks the platform to delete the message just sent and
    gives back the history from before the send, except that a record
    evicted by the send stays evicted. *)
Theorem send_then_delete_last (s : State) (chatId messageId : Z)
    (cb : DeleteCallback) (idx : option Z) (txt : option string) :
  deleteMessageCallback s = Some cb →
  cb (gatewayLog s) chatId messageId = Normal true →
  let before := getRecentMessages chatId s in
  ∃ s',
    execute (mkArgs "delete_last" idx txt) chatId
      (recordBotMessage chatId messageId s)
    = (Normal (succeeded "Deleted last message"), s') ∧
    gatewayLog s' = gatewayLog s ++ [DeleteMessage chatId messageId] ∧
    getRecentMessages chatId s'
    = if decide (length before < 20)%nat then before else tail before.
Proof.
  intros Hcb Hok before. unfold getRecentMessages in *.
  set (s1 := recordBotMessage chatId messageId s).
  assert (∃ kept, stored chatId s1 = kept ++ [messageId] ∧
            kept = if decide (length before < 20)%nat then before
                   else tail before) as (kept & Hs1 & Hkept).
  { subst s1. rewrite stored_record. fold before. unfold shift, MAX_STORED.
    rewrite length_app; simpl.
    case_decide; [rewrite decide_False by lia | rewrite decide_True by lia].
    - destruct before; simpl in *; [lia | eauto].
    - eauto. }
  rewrite (execute_delete_last _ _ _ _ cb messageId).
  - unfold settleDelete.
    change (gatewayLog s1) with (gatewayLog s). rewrite Hok.
    eexists. split; [reflexivity|]. split; [done|].
    rewrite stored_insert, Hs1. unfold pop. by rewrite removelast_last.
  - done.
  - rewrite Hs1. apply last_snoc.
Qed.

Lemma send_then_delete_last_witness :
  let s := scenarioWith (Normal true) in
  deleteMessageCallback s = Some (λ _ _ _, Normal true) ∧
  ∃ s',
    execute (mkArgs "delete_last" None None) 7 (recordBotMessage 7 204 s)
    = (Normal (succeeded "Deleted last message"), s') ∧
    gatewayLog s' = gatewayLog s ++ [DeleteMessage 7 204] ∧
    getRecentMessages 7 s' = [201; 202; 203].
Proof.
  intros s. split; [reflexivity|].
  exact (send_then_delete_last s 7 204 _ None None eq_refl eq_refl).
Defined.


(** X11. With a platform that confirms every delete, [n] calls of
    [delete_last] in a row (for [n] no larger than the history) ask for
    the [n] newest records, newest first, and leave the older ones. *)
Theorem delete_last_repeatedly (n : nat) (chatId : Z) (cb : DeleteCallback) :
  ∀ s : State,
  deleteMessageCallback s = Some cb →
  (∀ log target, cb log chatId target = Normal true) →
  let messages := getRecentMessages chatId s in
  (n ≤ length messages)%nat →
  let s' := run (replicate n (Manage (mkArgs "delete_last" None None) chatId))
              s in
  getRecentMessages chatId s' = take (length messages - n) messages ∧
  gatewayLog s'
  = gatewayLog s
      ++ (DeleteMessage chatId <$> reverse (drop (length messages - n) messages)).
Proof.
  unfold getRecentMessages.
  induction n as [|n IH]; intros s Hcb Hyes; cbv zeta; intros Hn.
  - simpl. rewrite Nat.sub_0_r, take_ge, drop_ge by lia.
    by rewrite app_nil_r.
  - destruct (stored chatId s) as [|y l] eqn:Hst using rev_ind;
      [simpl in Hn; lia|]. clear IHl.
    rewrite length_app in Hn |- *; simpl in Hn |- *.
    change (run (?st :: ?sts) s) with (run sts (step s st)).
    unfold step.
    rewrite (execute_delete_last _ _ _ _ cb y)
      by (done || rewrite Hst; apply last_snoc).
    unfold settleDelete. rewrite Hyes. cbn [snd].
    set (s1 := with_recentMessages _ _).
    assert (stored chatId s1 = l) as Hs1.
    { subst s1. rewrite stored_insert, Hst. unfold pop.
      by rewrite removelast_last. }
    specialize (IH s1 Hcb Hyes). cbv zeta in IH. rewrite Hs1 in IH.
    destruct IH as [IHh IHl]; [lia|]. rewrite IHh, IHl.
    replace (length l + 1 - S n)%nat with (length l - n)%nat by lia.
    split.
    + by rewrite take_app_le by lia.
    + subst s1; simpl. rewrite drop_app_le by lia.
      rewrite reverse_app; simpl. by rewrite <- app_assoc.
Qed.

Lemma delete_last_repeatedly_witness :
  let s := scenarioWith (Normal true) in
  deleteMessageCallback s = Some (λ _ _ _, Normal true) ∧
  (2 ≤ length (getRecentMessages 7 s))%nat ∧
  let s' := run (replicate 2 (Manage (mkArgs "delete_last" None None) 7)) s in
  getRecentMessages 7 s' = [201] ∧
  gatewayLog s' = [DeleteMessage 7 203; DeleteMessage 7 202].
Proof.
  intros s.
  assert (2 ≤ length (getRecentMessages 7 s))%nat as Hn by (vm_compute; lia).
  split; [reflexivity|]. split; [exact Hn|].
  exact (delete_last_repeatedly 2 7 _ s eq_refl (λ _ _, eq_refl) Hn).
Defined.

End SessionFacts.

(** * Properties of the memory tool *)
Module MemoryFacts.
Import Memory.

(** ** Strings *)

Lemma length_append (a b : string) :
  String.length (a +:+ b) = (String.length a + String.length b)%nat.
Proof. induction a as [|c a IH]; simpl; [done | by rewrite IH]. Qed.

Lemma substring_length (s : string) : ∀ a n,
  String.length (substring a n s) = (n `min` (String.length s - a))%nat.
Proof.
  induction s as [|c s IH]; intros [|a] [|n]; simpl;
    rewrite ?IH, ?Nat.sub_0_r; done.
Qed.

Lemma substring_all (s : string) : substring 0 (String.length s) s = s.
Proof. induction s as [|c s IH]; simpl; [done | by rewrite IH]. Qed.

Lemma substring_suffix (s : string) : ∀ a,
  ∃ dropped, s = dropped +:+ substring a (String.length s - a) s.
Proof.
  induction s as [|c s IH]; intros [|a].
  - by exists "".
  - by exists "".
  - exists "". by rewrite Nat.sub_0_r, substring_all.
  - destruct (IH a) as [d Hd]. exists (String c d).
    change (String c s
            = String c (d +:+ substring a (String.length s - a) s)).
    by f_equal.
Qed.

Lemma sliceLast_length (n : nat) (s : string) :
  String.length (sliceLast n s) = (n `min` String.length s)%nat.
Proof. unfold sliceLast. rewrite substring_length. lia. Qed.

Lemma sliceLast_suffix (n : nat) (s : string) :
  (n ≤ String.length s)%nat → ∃ dropped, s = dropped +:+ sliceLast n s.
Proof.
  intros Hn. unfold sliceLast.
  destruct (substring_suffix s (String.length s - n)) as [d Hd].
  exists d. by replace (String.length s - (String.length s - n))%nat with n
    in Hd by lia.
Qed.

Lemma trimStart_length (s : string) :
  (String.length (trimStart s) ≤ String.length s)%nat.
Proof.
  induction s as [|c s IH]; simpl; [done|].
  destruct (isWhiteSpace c); simpl; lia.
Qed.

Lemma trimEnd_length (s : string) :
  (String.length (trimEnd s) ≤ String.length s)%nat.
Proof.
  induction s as [|c s IH]; simpl; [done|].
  destruct (trimEnd s); [destruct (isWhiteSpace c)|]; simpl in *; lia.
Qed.

Lemma trim_length (s : string) :
  (String.length (trim s) ≤ String.length s)%nat.
Proof.
  unfold trim. etrans; [apply trimEnd_length | apply trimStart_length].
Qed.

Lemma truthy_nonempty (s : string) : s ≠ "" → truthy (Some s) = Some s.
Proof. by destruct s. Qed.

Lemma truthy_Some (o : option string) (s : string) :
  truthy o = Some s → o = Some s ∧ s ≠ "".
Proof. destruct o as [[|??]|]; intros; simplify_eq/=; done. Qed.

Section Path.
Variable join : string → string → string.

(** ** The tool, action by action *)

Lemma tool_read content cwd w :
  execute join (mkArgs "read" content) cwd w
  = (Normal
       match files w !! join cwd MEMORY_FILE with
       | None => succeeded "(memory is empty)"
       | Some data =>
         match readError w (join cwd MEMORY_FILE) with
         | Some e => failed e
         | None => succeeded (default "(memory is empty)" (truthy (Some data)))
         end
       end, w).
Proof.
  unfold execute, try_catch, bind, existsSync, gets, readFileSync, ret; simpl.
  destruct (files w !! join cwd MEMORY_FILE) as [data|] eqn:Hfile; simpl;
    rewrite ?Hfile; [|done].
  by destruct (readError w _).
Qed.

Lemma tool_append_no_content content cwd w :
  truthy content = None →
  execute join (mkArgs "append" content) cwd w
  = (Normal (failed "Content required for append"), w).
Proof.
  intros Hc. unfold execute, try_catch, bind, ret; simpl. by rewrite Hc.
Qed.

Lemma tool_append content text cwd w :
  truthy content = Some text →
  let path := join cwd MEMORY_FILE in
  let entry := entryOf (timestampOf (now w)) text in
  let done_ := "Added to memory (" +:+ pretty (String.length text)
                 +:+ " chars)" in
  execute join (mkArgs "append" content) cwd w
  = match files w !! path with
    | None => written path (header +:+ entry) done_ w
    | Some data =>
      match readError w path with
      | Some e => (Normal (failed e), w)
      | None => written path (data +:+ entry) done_ w
      end
    end.
Proof.
  intros Hc. cbv zeta.
  unfold execute, written, try_catch, bind, existsSync, toISOString, gets,
    readFileSync, writeFileSync, ret; simpl.
  rewrite Hc.
  destruct (files w !! join cwd MEMORY_FILE) as [data|] eqn:Hfile; simpl;
    rewrite ?Hfile.
  - destruct (readError w _); [done|]. by destruct (writeError w _).
  - by destruct (writeError w _).
Qed.

Lemma tool_clear content cwd w :
  execute join (mkArgs "clear" content) cwd w
  = written (join cwd MEMORY_FILE) header "Memory cleared" w.
Proof.
  unfold execute, written, try_catch, bind, writeFileSync, ret; simpl.
  by destruct (writeError w _).
Qed.

Lemma tool_unknown act content cwd w :
  act ≠ "read" → act ≠ "append" → act ≠ "clear" →
  execute join (mkArgs act content) cwd w
  = (Normal (failed ("Unknown action: " +:+ act)), w).
Proof.
  intros H1 H2 H3. unfold execute, try_catch, bind, ret; simpl.
  apply String.eqb_neq in H1, H2, H3. by rewrite H1, H2, H3.
Qed.

(** Every call is a refusal, a read, or one write to the memory file. *)
Lemma tool_cases args cwd w :
  ∃ r w', execute join args cwd w = (Normal r, w') ∧
    ((w' = w ∧ (success r = false ∨ action args = "read"))
     ∨ (∃ data, w' = with_files (insert (join cwd MEMORY_FILE) data) w ∧
          writeError w (join cwd MEMORY_FILE) = None ∧
          success r = true ∧
          (action args = "append" ∨ action args = "clear"))) ∧
    (if success r then is_Some (output r) ∧ error r = None
     else output r = None ∧ is_Some (error r)).
Proof.
  destruct args as [act content].
  destruct (decide (act = "read")) as [->|H1].
  { rewrite tool_read. eexists _, _; split; [reflexivity|].
    split; [left; split; [done | by right]|].
    destruct (files w !! _); [destruct (readError w _)|]; simpl; eauto. }
  destruct (decide (act = "append")) as [->|H2].
  { destruct (truthy content) as [text|] eqn:Hc; cycle 1.
    { rewrite tool_append_no_content by done.
      eexists _, _; split; [reflexivity|]. simpl; eauto 10. }
    rewrite (tool_append _ text) by done. unfold written.
    destruct (files w !! _); [destruct (readError w _)|];
      destruct (writeError w _) eqn:Hw;
      eexists _, _; (split; [reflexivity|]); simpl; eauto 10. }
  destruct (decide (act = "clear")) as [->|H3].
  { rewrite tool_clear. unfold written.
    destruct (writeError w _) eqn:Hw;
      eexists _, _; (split; [reflexivity|]); simpl; eauto 10. }
  rewrite tool_unknown by done.
  eexists _, _; split; [reflexivity|]. simpl; eauto 10.
Qed.

Lemma getMemoryForPrompt_eq cwd w :
  getMemoryForPrompt join cwd w
  = (Normal
       match files w !! join cwd MEMORY_FILE with
       | None => None
       | Some data =>
         match readError w (join cwd MEMORY_FILE) with
         | Some _ => None
         | None =>
           if decide (String.length (trim data) < 100)%nat then None
           else if decide (String.length data > maxLen)%nat then
             Some ("...(truncated)..." +:+ newline +:+ sliceLast maxLen data)
           else Some data
         end
       end, w).
Proof.
  unfold getMemoryForPrompt, try_catch, bind, existsSync, gets,
    readFileSync, ret; simpl.
  destruct (files w !! join cwd MEMORY_FILE) as [data|] eqn:Hfile; simpl;
    rewrite ?Hfile; [|done].
  destruct (readError w _); [done|].
  by repeat case_decide.
Qed.

(** X12. The memory tool always completes normally, and its result has
    [output] and no [error] when [success] is true, [error] and no [output]
    when it is false: a failing file operation becomes a failure result. *)
Theorem memory_result_well_formed (args : Args) (cwd : string) (w : World) :
  ∃ r w',
    execute join args cwd w = (Normal r, w') ∧
    if success r then is_Some (output r) ∧ error r = None
    else output r = None ∧ is_Some (error r).
Proof.
  destruct (tool_cases args cwd w) as (r & w' & Hrun & _ & Hwf). eauto.
Qed.

(** X13. A call of the memory tool either leaves everything as it was, or
    rewrites the one file [MEMORY.md] of the working directory; the latter
    only for [append] and [clear] and only when the call reports success.
    So reads, refusals and failed writes change nothing, and no other file
    is ever touched. *)
Theorem memory_writes_only_its_file (args : Args) (cwd : string) (w : World) :
  let path := join cwd MEMORY_FILE in
  ∃ r w',
    execute join args cwd w = (Normal r, w') ∧
    (w' = w
     ∨ (success r = true ∧
        (action args = "append" ∨ action args = "clear") ∧
        ∃ data, files w' = <[path := data]> (files w) ∧
                readError w' = readError w ∧ writeError w' = writeError w ∧
                now w' = now w)).
Proof.
  destruct (tool_cases args cwd w) as (r & w' & Hrun & Hcases & _).
  exists r, w'. split; [done|].
  destruct Hcases as [[-> _] | (data & -> & _ & Hok & Hact)]; [by left|].
  right. eauto 10.
Qed.

(** X14. [read] returns the whole file; a missing file and an empty file both
    read as [(memory is empty)], successfully. *)
Theorem read_returns_file_or_placeholder (content : option string)
    (cwd : string) (w : World) :
  let path := join cwd MEMORY_FILE in
  readError w path = None →
  execute join (mkArgs "read" content) cwd w
  = (Normal (succeeded match files w !! path with
                       | None | Some "" => "(memory is empty)"
                       | Some data => data
                       end), w).
Proof.
  intros path Hread. rewrite tool_read. fold path. rewrite Hread.
  by destruct (files w !! path) as [[|??]|].
Qed.

(** X15. [append] with a missing or empty [content] is refused with
    [Content required for append]; nothing is read or written, so this is
    the answer even when the file cannot be accessed. *)
Theorem append_requires_content (content : option string) (cwd : string)
    (w : World) :
  content = None ∨ content = Some "" →
  execute join (mkArgs "append" content) cwd w
  = (Normal (failed "Content required for append"), w).
Proof.
  intros Hc. apply tool_append_no_content. by destruct Hc as [-> | ->].
Qed.

(** X16. When the memory file can be read and written, [append] keeps what
    the file held (or starts from the header when there was no file), adds
    the entry after it, and reports the length of the content; a [read]
    right after returns exactly that text. *)
Theorem append_then_read (text : string) (cwd : string) (w : World) :
  let path := join cwd MEMORY_FILE in
  let old := default header (files w !! path) in
  let entry := newline +:+ "## " +:+ timestampOf (now w) +:+ newline
                 +:+ text +:+ newline in
  text ≠ "" → readError w path = None → writeError w path = None →
  ∃ w',
    execute join (mkArgs "append" (Some text)) cwd w
    = (Normal (succeeded ("Added to memory ("
                            +:+ pretty (String.length text) +:+ " chars)")),
       w') ∧
    files w' = <[path := old +:+ entry]> (files w) ∧
    ∀ content',
      execute join (mkArgs "read" content') cwd w'
      = (Normal (succeeded (old +:+ entry)), w').
Proof.
  intros path old entry Htext Hread Hwrite.
  rewrite (tool_append _ text) by by apply truthy_nonempty.
  fold path. rewrite Hread. unfold written. rewrite Hwrite.
  exists (with_files (insert path (old +:+ entry)) w).
  assert (match files w !! path with
          | Some data =>
              (Normal (succeeded ("Added to memory ("
                 +:+ pretty (String.length text) +:+ " chars)")),
               with_files (insert path (data +:+ entryOf (timestampOf (now w)) text)) w)
          | None =>
              (Normal (succeeded ("Added to memory ("
                 +:+ pretty (String.length text) +:+ " chars)")),
               with_files (insert path (header +:+ entryOf (timestampOf (now w)) text)) w)
          end
          = (Normal (succeeded ("Added to memory ("
                 +:+ pretty (String.length text) +:+ " chars)")),
             with_files (insert path (old +:+ entry)) w)) as ->.
  { subst old. by destruct (files w !! path). }
  split; [done|]. split; [done|].
  intros content'. rewrite tool_read. fold path.
  cbn [files readError with_files].
  rewrite lookup_insert_eq, Hread, truthy_nonempty; [done|].
  subst entry. destruct old; discriminate.
Qed.

(** X17. When the memory file can be written, [clear] replaces whatever it
    held by the header; after that the prompt gets no memory at all, and a
    [read] (when the file can be read) returns the header. *)
Theorem clear_resets_memory (content : option string) (cwd : string)
    (w : World) :
  let path := join cwd MEMORY_FILE in
  writeError w path = None →
  ∃ w',
    execute join (mkArgs "clear" content) cwd w
    = (Normal (succeeded "Memory cleared"), w') ∧
    files w' = <[path := header]> (files w) ∧
    getMemoryForPrompt join cwd w' = (Normal None, w') ∧
    (readError w path = None →
       execute join (mkArgs "read" None) cwd w'
       = (Normal (succeeded header), w')).
Proof.
  intros path Hwrite. rewrite tool_clear. fold path.
  unfold written. rewrite Hwrite.
  eexists. split; [reflexivity|]. split; [reflexivity|]. split.
  - rewrite getMemoryForPrompt_eq. fold path.
    cbn [files readError with_files]. rewrite lookup_insert_eq.
    destruct (readError w path); [done|].
    by rewrite decide_True by (vm_compute; lia).
  - intros Hread. rewrite tool_read. fold path. simpl.
    by rewrite lookup_insert_eq, Hread.
Qed.

(** X18. [getMemoryForPrompt] never throws and never changes anything.  When
    it returns a text, the file exists and could be read, its trimmed
    content has at least 100 characters, and the text is the content itself
    if that has at most 2000 characters, and otherwise the truncation marker
    followed by the last 2000 characters of the content; in either case the
    text has at most 2018 characters. *)
Theorem prompt_memory_bounded (cwd : string) (w : World) :
  let path := join cwd MEMORY_FILE in
  ∃ o,
    getMemoryForPrompt join cwd w = (Normal o, w) ∧
    match o with
    | None => True
    | Some shown =>
      ∃ data,
        files w !! path = Some data ∧ readError w path = None ∧
        (100 ≤ String.length (trim data))%nat ∧
        (String.length shown ≤ 2018)%nat ∧
        if decide (String.length data ≤ 2000)%nat then shown = data
        else ∃ dropped kept,
               data = dropped +:+ kept ∧ String.length kept = 2000%nat ∧
               shown = "...(truncated)..." +:+ newline +:+ kept
    end.
Proof.
  intros path. rewrite getMemoryForPrompt_eq. fold path.
  destruct (files w !! path) as [data|] eqn:Hfile; [|by exists None].
  destruct (readError w path) eqn:Hread; [by exists None|].
  case_decide as Hshort; [by exists None|].
  unfold maxLen. case_decide as Hlong.
  - eexists (Some _). split; [reflexivity|]. exists data.
    repeat split; try lia.
    + rewrite !length_append, sliceLast_length.
      change (String.length "...(truncated)...") with 17%nat.
      change (String.length newline) with 1%nat.
      pose proof (Nat.le_min_l 2000 (String.length data)). lia.
    + rewrite decide_False by lia.
      destruct (sliceLast_suffix 2000 data) as [dropped Hd]; [lia|].
      exists dropped, (sliceLast 2000 data). split; [done|].
      split; [|done]. rewrite sliceLast_length. lia.
  - exists (Some data). split; [done|]. exists data.
    repeat split; try lia. by rewrite decide_True by lia.
Qed.

(** X19. A memory file of fewer than 100 characters, such as the bare
    header, gives the prompt nothing, and so does a file that cannot be
    read. *)
Theorem prompt_memory_needs_substance (cwd : string) (w : World)
    (data : string) :
  let path := join cwd MEMORY_FILE in
  files w !! path = Some data →
  (String.length data < 100)%nat ∨ is_Some (readError w path) →
  getMemoryForPrompt join cwd w = (Normal None, w).
Proof.
  intros path Hfile Hwhy. rewrite getMemoryForPrompt_eq. fold path.
  rewrite Hfile.
  destruct (readError w path) eqn:Hread; [done|].
  destruct Hwhy as [Hshort | [e He]]; [|done].
  rewrite decide_True; [done|]. pose proof (trim_length data). lia.
Qed.
End Path.

Lemma read_returns_file_or_placeholder_witness :
  readError blank (joinSlash "/work" MEMORY_FILE) = None ∧
  execute joinSlash (mkArgs "read" None) "/work" blank
  = (Normal (succeeded "(memory is empty)"), blank).
Proof.
  split; [reflexivity|].
  exact (read_returns_file_or_placeholder joinSlash None "/work" blank
           eq_refl).
Defined.

Lemma append_requires_content_witness :
  (Some "" = None ∨ Some "" = Some "") ∧
  execute joinSlash (mkArgs "append" (Some "")) "/work" blank
  = (Normal (failed "Content required for append"), blank).
Proof.
  assert (Some "" = None ∨ Some "" = Some "") as Hc by (by right).
  split; [exact Hc|].
  exact (append_requires_content joinSlash (Some "") "/work" blank Hc).
Defined.

Lemma append_then_read_witness :
  "buy milk" ≠ "" ∧
  ∃ w',
    execute joinSlash (mkArgs "append" (Some "buy milk")) "/work" blank
    = (Normal (succeeded "Added to memory (8 chars)"), w') ∧
    files w'
    = <[ "/work/MEMORY.md" :=
           header +:+ newline +:+ "## 2026-11-01 06:40" +:+ newline
             +:+ "buy milk" +:+ newline ]> ∅ ∧
    ∀ content',
      execute joinSlash (mkArgs "read" content') "/work" w'
      = (Normal (succeeded
                   (header +:+ newline +:+ "## 2026-11-01 06:40" +:+ newline
                      +:+ "buy milk" +:+ newline)), w').
Proof.
  assert ("buy milk" ≠ "") as Hne by discriminate.
  split; [exact Hne|].
  exact (append_then_read joinSlash "buy milk" "/work" blank Hne
           eq_refl eq_refl).
Defined.

Lemma clear_resets_memory_witness :
  writeError blank (joinSlash "/work" MEMORY_FILE) = None ∧
  ∃ w',
    execute joinSlash (mkArgs "clear" None) "/work" blank
    = (Normal (succeeded "Memory cleared"), w') ∧
    files w' = <[ "/work/MEMORY.md" := header ]> ∅ ∧
    getMemoryForPrompt joinSlash "/work" w' = (Normal None, w') ∧
    (readError blank (joinSlash "/work" MEMORY_FILE) = None →
       execute joinSlash (mkArgs "read" None) "/work" w'
       = (Normal (succeeded header), w')).
Proof.
  split; [reflexivity|].
  exact (clear_resets_memory joinSlash None "/work" blank eq_refl).
Defined.

Lemma prompt_memory_needs_substance_witness :
  let w := with_files (insert "/work/MEMORY.md" header) blank in
  files w !! joinSlash "/work" MEMORY_FILE = Some header ∧
  ((String.length header < 100)%nat
   ∨ is_Some (readError w (joinSlash "/work" MEMORY_FILE))) ∧
  getMemoryForPrompt joinSlash "/work" w = (Normal None, w).
Proof.
  intros w.
  assert ((String.length header < 100)%nat
          ∨ is_Some (readError w (joinSlash "/work" MEMORY_FILE))) as Hwhy
    by (left; vm_compute; lia).
  split; [reflexivity|]. split; [exact Hwhy|].
  exact (prompt_memory_needs_substance joinSlash "/work" w header
           eq_refl Hwhy).
Defined.


(** ** The heading of an entry *)

Lemma slice0_app (a b : string) (n : nat) :
  Web.slice0 (String.length a + n) (a +:+ b) = a +:+ Web.slice0 n b.
Proof.
  unfold Web.slice0. induction a as [|c a IH]; simpl; [done|].
  by rewrite IH.
Qed.

Lemma replaceFirst_app (c : ascii) (r a b : string) :
  c ∉ list_ascii_of_string a →
  replaceFirst c r (a +:+ String c b) = a +:+ r +:+ b.
Proof.
  induction a as [|x a IH]; simpl; intros Hnot.
  - by rewrite Ascii.eqb_refl.
  - rewrite not_elem_of_cons in Hnot. destruct Hnot as [Hx Ha].
    rewrite (proj2 (Ascii.eqb_neq x c)) by done. by rewrite IH.
Qed.

(** X20. For a clock reading of the ISO form (a 10-character date, [T], the
    time), the heading of an appended entry is the date, a space, and the
    first five characters of the time: [YYYY-MM-DD HH:MM]. *)
Theorem timestamp_is_date_and_minute (date time : string) :
  String.length date = 10%nat →
  "T"%char ∉ list_ascii_of_string date →
  timestampOf (date +:+ "T" +:+ time) = date +:+ " " +:+ Web.slice0 5 time.
Proof.
  intros Hlen Hnot. unfold timestampOf.
  change 16%nat with (10 + 6)%nat. rewrite <- Hlen, slice0_app.
  change ("T" +:+ time) with (String "T" time).
  change (Web.slice0 6 (String "T" time))
    with (String "T" (Web.slice0 5 time)).
  by rewrite replaceFirst_app.
Qed.

Lemma timestamp_is_date_and_minute_witness :
  String.length "2026-11-01" = 10%nat ∧
  ("T"%char ∉ list_ascii_of_string "2026-11-01") ∧
  timestampOf ("2026-11-01" +:+ "T" +:+ "06:40:12.345Z")
  = "2026-11-01" +:+ " " +:+ "06:40".
Proof.
  assert ("T"%char ∉ list_ascii_of_string "2026-11-01") as Hnot.
  { simpl. rewrite !not_elem_of_cons, elem_of_nil.
    repeat split; (discriminate || tauto). }
  split; [reflexivity|]. split; [exact Hnot|].
  exact (timestamp_is_date_and_minute "2026-11-01" "06:40:12.345Z"
           eq_refl Hnot).
Defined.

End MemoryFacts.

(** * More properties of the web tools *)
Module WebMoreFacts.
Import Web WebFacts.

Section Providers.
Variable fetch : string → string → Completion Response.
Variable tavilySearch : string → string → Completion (list TavilyEntry).

Lemma present_well_formed results :
  success (present results) = true ∧ is_Some (output (present results)) ∧
  error (present results) = None.
Proof. unfold present. case_decide; simpl; eauto. Qed.

(** X21. [executeSearchWeb] always completes normally with a well-formed
    result, and what it sends is decided by the keys: nothing when neither
    is set; one Tavily request when only the Tavily key is set; one Z.AI
    request otherwise, followed by one Tavily request only after a Z.AI
    failure and only when the Tavily key is set.  Requests carry the query
    and the keys given; no provider is asked twice. *)
Theorem search_web_requests (query : string)
    (zaiApiKey tavilyApiKey : option string) (log : list Event) :
  let failing := ConsoleLog "[search] Z.AI failed, trying Tavily..." in
  ∃ r sent,
    executeSearchWeb fetch tavilySearch query zaiApiKey tavilyApiKey log
    = (Normal r, log ++ sent) ∧
    (if success r then is_Some (output r) ∧ error r = None
     else output r = None ∧ is_Some (error r)) ∧
    match truthy zaiApiKey, truthy tavilyApiKey with
    | None, None => sent = [] ∧ success r = false
    | None, Some tavilyKey => sent = [TavilyRequest query tavilyKey]
    | Some zaiKey, None =>
        (sent = [ZaiRequest query zaiKey] ∧ success r = true)
        ∨ (sent = [ZaiRequest query zaiKey; failing] ∧ success r = false)
    | Some zaiKey, Some tavilyKey =>
        (sent = [ZaiRequest query zaiKey] ∧ success r = true)
        ∨ sent = [ZaiRequest query zaiKey; failing;
                  TavilyRequest query tavilyKey]
    end.
Proof.
  intros failing. unfold executeSearchWeb, obtain.
  destruct (truthy zaiApiKey) as [zaiKey|];
    destruct (truthy tavilyApiKey) as [tavilyKey|].
  - unfold try_catch, bind, ret, consoleLog, modify.
    rewrite searchZai_log.
    destruct (searchZai fetch query zaiKey []).1 as [results|e].
    + destruct (present_well_formed results) as (Hs & Ho & He).
      eexists _, _; split; [reflexivity|]. rewrite Hs. eauto.
    + rewrite searchTavily_log, <- !app_assoc; simpl.
      destruct (searchTavily tavilySearch query tavilyKey []).1
        as [results|e'].
      * destruct (present_well_formed results) as (Hs & Ho & He).
        eexists _, _; split; [reflexivity|]. rewrite Hs. eauto.
      * eexists _, _; split; [reflexivity|]. simpl; eauto.
  - unfold try_catch, bind, ret, consoleLog, modify, throw.
    rewrite searchZai_log.
    destruct (searchZai fetch query zaiKey []).1 as [results|e].
    + destruct (present_well_formed results) as (Hs & Ho & He).
      eexists _, _; split; [reflexivity|]. rewrite Hs. eauto.
    + rewrite <- !app_assoc; simpl.
      eexists _, _; split; [reflexivity|]. simpl; eauto.
  - rewrite run_tavily.
    destruct (searchTavily tavilySearch query tavilyKey []).1
      as [results|e']; simpl.
    + destruct (present_well_formed results) as (Hs & Ho & He).
      eexists _, _; split; [reflexivity|]. rewrite Hs. eauto.
    + eexists _, _; split; [reflexivity|]. simpl; eauto.
  - exists (failed "No search API configured (ZAI_API_KEY or TAVILY_API_KEY)"),
      []. rewrite app_nil_r. simpl. eauto.
Qed.

(** X22. An answer of Z.AI with status OK and no entries (an empty
    [search_result], or none at all) is not a failure: the tool reports
    [(no results)] successfully and does not turn to Tavily, even when the
    Tavily key is set. *)
Theorem empty_primary_answer_is_final (query zaiKey : string)
    (tavilyApiKey : option string) (response : Response)
    (data : option (list ZaiEntry)) (log : list Event) :
  zaiKey ≠ "" →
  fetch query zaiKey = Normal response →
  ok response = true →
  json response = Normal data →
  data = None ∨ data = Some [] →
  executeSearchWeb fetch tavilySearch query (Some zaiKey) tavilyApiKey log
  = (Normal (succeeded "(no results)"), log ++ [ZaiRequest query zaiKey]).
Proof.
  intros Hkey Hfetch Hok Hjson Hdata.
  unfold executeSearchWeb, obtain.
  assert (truthy (Some zaiKey) = Some zaiKey) as -> by by destruct zaiKey.
  unfold try_catch, bind, ret. rewrite searchZai_log.
  assert ((searchZai fetch query zaiKey []).1 = Normal []) as ->; [|done].
  unfold searchZai, bind, doFetch, ret; simpl.
  rewrite Hfetch, Hok; simpl. rewrite Hjson.
  by destruct Hdata as [-> | ->].
Qed.

(** X23. When Z.AI answers with a status that is not OK and no Tavily key is
    set, the tool fails with [Z.AI error: ] and the status; the body of
    the answer is not looked at. *)
Theorem primary_http_error_is_reported (query zaiKey : string)
    (tavilyApiKey : option string) (response : Response) (log : list Event) :
  zaiKey ≠ "" →
  truthy tavilyApiKey = None →
  fetch query zaiKey = Normal response →
  ok response = false →
  executeSearchWeb fetch tavilySearch query (Some zaiKey) tavilyApiKey log
  = (Normal (failed ("Z.AI error: " +:+ pretty (status response))),
     log ++ [ZaiRequest query zaiKey;
             ConsoleLog "[search] Z.AI failed, trying Tavily..."]).
Proof.
  intros Hkey Htavily Hfetch Hok.
  unfold executeSearchWeb, obtain.
  assert (truthy (Some zaiKey) = Some zaiKey) as -> by by destruct zaiKey.
  rewrite Htavily.
  unfold try_catch, bind, ret, consoleLog, modify, throw.
  rewrite searchZai_log.
  assert ((searchZai fetch query zaiKey []).1
          = Throw ("Z.AI error: " +:+ pretty (status response))) as ->.
  { unfold searchZai, bind, doFetch, throw; simpl. by rewrite Hfetch, Hok. }
  by rewrite <- !app_assoc.
Qed.

(** X24. With only the Tavily key set, each entry Tavily returns is shown
    without a date: its number in brackets and its title on one line, its
    URL on the next, and then the first 400 characters of its content. *)
Theorem tavily_entries_have_no_date (query tavilyKey : string)
    (zaiApiKey : option string) (entries : list TavilyEntry)
    (log : list Event) :
  truthy zaiApiKey = None →
  tavilyKey ≠ "" →
  tavilySearch query tavilyKey = Normal entries →
  entries ≠ [] →
  executeSearchWeb fetch tavilySearch query zaiApiKey (Some tavilyKey) log
  = (Normal (succeeded
       (String.concat (newline +:+ newline)
          (imap (λ i e, "[" +:+ pretty (i + 1)%nat +:+ "] " +:+ t_title e
                          +:+ newline +:+ t_url e +:+ newline
                          +:+ slice0 400 (t_content e))
                entries))),
     log ++ [TavilyRequest query tavilyKey]).
Proof.
  intros Hzai Hkey Htavily Hne.
  unfold executeSearchWeb, obtain. rewrite Hzai.
  assert (truthy (Some tavilyKey) = Some tavilyKey) as ->
    by by destruct tavilyKey.
  rewrite run_tavily.
  unfold searchTavily, bind, doTavily, ret; simpl. rewrite Htavily; simpl.
  unfold present, render. rewrite decide_False by by destruct entries.
  by rewrite imap_fmap.
Qed.
End Providers.

Lemma empty_primary_answer_is_final_witness :
  let fetch : string → string → Completion Response :=
    λ _ _, Normal {| ok := true; status := 200; json := Normal None |} in
  "zk" ≠ "" ∧ (@None (list ZaiEntry) = None ∨ @None (list ZaiEntry) = Some []) ∧
  executeSearchWeb fetch tavilyLong "rocq" (Some "zk") (Some "tk") []
  = (Normal (succeeded "(no results)"), [ZaiRequest "rocq" "zk"]).
Proof.
  intros fetch.
  assert ("zk" ≠ "") as Hkey by discriminate.
  assert (@None (list ZaiEntry) = None ∨ @None (list ZaiEntry) = Some []) as Hdata
    by (by left).
  split; [exact Hkey|]. split; [exact Hdata|].
  exact (empty_primary_answer_is_final fetch tavilyLong "rocq" "zk"
           (Some "tk") _ None [] Hkey eq_refl eq_refl eq_refl Hdata).
Defined.

Lemma primary_http_error_is_reported_witness :
  "zk" ≠ "" ∧ truthy (Some "") = None ∧
  executeSearchWeb zaiDown tavilyLong "rocq" (Some "zk") (Some "") []
  = (Normal (failed "Z.AI error: 500"),
     [ZaiRequest "rocq" "zk";
      ConsoleLog "[search] Z.AI failed, trying Tavily..."]).
Proof.
  assert ("zk" ≠ "") as Hkey by discriminate.
  split; [exact Hkey|]. split; [reflexivity|].
  exact (primary_http_error_is_reported zaiDown tavilyLong "rocq" "zk"
           (Some "") _ [] Hkey eq_refl eq_refl eq_refl).
Defined.

Lemma tavily_entries_have_no_date_witness :
  let tavily : string → string → Completion (list TavilyEntry) :=
    λ _ _, Normal [mkTavilyEntry "Rocq" "https://rocq-prover.org"
                     "The Rocq Prover"] in
  truthy None = None ∧ "tk" ≠ "" ∧
  executeSearchWeb zaiUp tavily "rocq" None (Some "tk") []
  = (Normal (succeeded ("[1] Rocq" +:+ newline +:+ "https://rocq-prover.org"
                          +:+ newline +:+ "The Rocq Prover")),
     [TavilyRequest "rocq" "tk"]).
Proof.
  intros tavily.
  assert ("tk" ≠ "") as Hkey by discriminate.
  split; [reflexivity|]. split; [exact Hkey|].
  refine (tavily_entries_have_no_date zaiUp tavily "rocq" "tk" None _ []
            eq_refl Hkey eq_refl _).
  discriminate.
Defined.

End WebMoreFacts.

(** * Properties of fetch_page *)
Module FetchPageFacts.
Import FetchPage.

Lemma slice0_short (n : nat) (s : string) :
  (String.length s ≤ n)%nat → Web.slice0 n s = s.
Proof.
  unfold Web.slice0. revert n.
  induction s as [|c s IH]; intros [|n] Hn; simpl in *; try done; try lia.
  by rewrite IH by lia.
Qed.

Section Network.
Variable fetch : string → Completion Response.

(** X25. [executeFetchPage] sends one GET with the fixed user agent and
    never throws.  A status that is not OK gives [HTTP ] and the status,
    and the body is not read; a failed request or a failed read of the
    body gives the message of the error. *)
Theorem fetch_page_failures (url : string) (log : list Event) :
  (∀ e, fetch url = Throw e →
     executeFetchPage fetch url log
     = (Normal (failed e), log ++ [Get url userAgent])) ∧
  (∀ response, fetch url = Normal response → ok response = false →
     executeFetchPage fetch url log
     = (Normal (failed ("HTTP " +:+ pretty (status response))),
        log ++ [Get url userAgent])) ∧
  (∀ response e, fetch url = Normal response → ok response = true →
     text response = Throw e →
     executeFetchPage fetch url log
     = (Normal (failed e), log ++ [Get url userAgent; ReadText])).
Proof.
  unfold executeFetchPage, try_catch, bind, doFetch, readText, ret.
  repeat split.
  - by intros e ->.
  - intros response -> Hok. by rewrite Hok.
  - intros response e -> Hok Htext. rewrite Hok; simpl. rewrite Htext.
    by rewrite <- app_assoc.
Qed.

(** X26. When the page is fetched and read, the output is the first 50000
    characters of the body: a prefix of it, the whole of it when it is no
    longer than that. *)
Theorem fetch_page_truncates (url : string) (response : Response)
    (body : string) (log : list Event) :
  fetch url = Normal response → ok response = true →
  text response = Normal body →
  ∃ shown rest,
    executeFetchPage fetch url log
    = (Normal (succeeded shown), log ++ [Get url userAgent; ReadText]) ∧
    body = shown +:+ rest ∧
    String.length shown = (Z.to_nat 50000 `min` String.length body)%nat ∧
    (String.length body ≤ Z.to_nat 50000 → shown = body)%nat.
Proof.
  intros Hfetch Hok Htext.
  destruct (WebFacts.slice0_prefix (Z.to_nat 50000) body) as [rest Hrest].
  exists (Web.slice0 (Z.to_nat 50000) body), rest.
  split; [|split; [done|split; [apply WebFacts.slice0_length|]]].
  - unfold executeFetchPage, try_catch, bind, doFetch, readText, ret.
    rewrite Hfetch, Hok; simpl. rewrite Htext. by rewrite <- app_assoc.
  - apply slice0_short.
Qed.
End Network.

Lemma fetch_page_failures_witness :
  let fetch : string → Completion Response :=
    λ _, Normal {| ok := false; status := 404; text := Normal "gone" |} in
  executeFetchPage fetch "https://example.org/x" []
  = (Normal (failed "HTTP 404"), [Get "https://example.org/x" userAgent]).
Proof.
  intros fetch.
  exact (proj1 (proj2 (fetch_page_failures fetch "https://example.org/x" []))
           _ eq_refl eq_refl).
Defined.

Lemma fetch_page_truncates_witness :
  let fetch : string → Completion Response :=
    λ _, Normal {| ok := true; status := 200; text := Normal "<p>hi</p>" |} in
  ∃ shown rest,
    executeFetchPage fetch "https://example.org/" []
    = (Normal (succeeded shown),
       [] ++ [Get "https://example.org/" userAgent; ReadText]) ∧
    "<p>hi</p>" = shown +:+ rest ∧
    String.length shown = (Z.to_nat 50000 `min` 9)%nat ∧
    (9 ≤ Z.to_nat 50000 → shown = "<p>hi</p>")%nat.
Proof.
  intros fetch.
  exact (fetch_page_truncates fetch "https://example.org/" _ "<p>hi</p>" []
           eq_refl eq_refl eq_refl).
Defined.

End FetchPageFacts.
